(** * kilo_server: a shallow embedding of the game-session core

    This development embeds the core of the kilo_server game registry
    (src/src/notify.rs, src/src/game/mod.rs, src/src/game/search.rs,
    src/src/game/adapter.rs, src/src/game/connect4.rs) and proves or
    refutes the properties stated for it.

    Conventions of the embedding:
    - a [usize] is a [Z] in [0, 2^64); arithmetic on it is written out
      with its wrap-around (the release profile); the one product that
      can overflow on a request path, the skip of [SearchEngine::apply],
      also has a debug-build model ([Search.apply_debug],
      [Registry.list_games_debug], [Registry.serve_debug]) that panics
      there instead;
    - a byte [u8] is a [Z] in [0, 256);
    - a Rust [String] or [&str] is a Rocq [string] (its bytes);
    - fallible code returns the [Result] type below, whose [Panic]
      constructor marks the places where the Rust code panics
      ([unwrap] on [None], [assert!], [panic!]);
    - a retry loop driven by random draws consumes an explicit list of
      draws; [Pending] marks a loop that has not left after them. *)

From Stdlib Require Import ZArith Lia Btauto Bool Ascii String Sorted.
From stdpp Require Import base gmap strings list pretty.

Local Open Scope Z_scope.

(* ------------------------------------------------------------------ *)
(** ** Shared types *)

(** [usize] arithmetic *)
Definition usize_modulus : Z := 2 ^ 64.
Definition wrap_usize (x : Z) : Z := x mod usize_modulus.

(** adapter.rs: [enum Stage]; its order is the declaration order. *)
Inductive Stage := Waiting | InProgress | Ended.

Definition stage_index (s : Stage) : nat :=
  match s with Waiting => 0 | InProgress => 1 | Ended => 2 end%nat.

Definition stage_cmp (a b : Stage) : comparison :=
  Nat.compare (stage_index a) (stage_index b).

Definition stage_eqb (a b : Stage) : bool :=
  Nat.eqb (stage_index a) (stage_index b).

(** mod.rs: [enum GameType] (derives [Ord]); it has the single
    variant [Connect4]. *)
Inductive GameType := Connect4.

Definition game_type_cmp (a b : GameType) : comparison := Eq.

(** [GameType::Connect4], under a name the Connect 4 module does not
    shadow. *)
Definition GameType_Connect4 : GameType := Connect4.

(** mod.rs: [GameId([u8; 4])] and [SessionId([u8; 16])], as their
    byte lists. *)
Abbreviation GameId := (list Z) (only parsing).
Abbreviation SessionId := (list Z) (only parsing).

(** mod.rs: [InvalidUsernameReason], [GameManagerError];
    adapter.rs: [GameAdapterErrorType], [GameAdapterError]. *)
Inductive InvalidUsernameReason :=
| AlreadyInGame (g : GameId)
| TooShort
| TooLong.

Inductive GameManagerError :=
| GameNotFound (g : GameId)
| SessionNotFound (s : SessionId)
| InvalidUsername (username : string) (reason : InvalidUsernameReason)
| InvalidPage.

Inductive GameAdapterErrorType :=
| InvalidPlayer (player : string)
| InvalidMove (msg : string)
| InvalidGameStage (s : Stage).

Record GameAdapterError := {
  ae_game_id : GameId;
  error_type : GameAdapterErrorType
}.

(** The errors that reach [actix_web::Error]. *)
Inductive Error :=
| ManagerError (e : GameManagerError)
| AdapterError (e : GameAdapterError)
| SerdeError
| NotifierError.

Inductive Result (A : Type) :=
| Ok (a : A)
| Err (e : Error)
| Panic (msg : string)
| Pending.
Arguments Ok {A} a.
Arguments Err {A} e.
Arguments Panic {A} msg.
Arguments Pending {A}.

Definition is_panic {A} (r : Result A) : bool :=
  match r with Panic _ => true | _ => false end.

Definition is_ok {A} (r : Result A) : bool :=
  match r with Ok _ => true | _ => false end.

(* ------------------------------------------------------------------ *)
(** ** notify.rs: the change notifier *)

Module Notify.

(** The [tokio::sync::broadcast] channel: every value ever sent, oldest
    first, and whether the sender has been dropped. The ring buffer
    keeps the last [CAPACITY] values; a receiver is the index of the
    next value it will read. *)
Record Channel := {
  ch_sent : list Z;
  ch_closed : bool
}.

(** [broadcast::channel(8)] *)
Definition CAPACITY : nat := 8.

Record Notifier := {
  sender : Channel;
  clock : Z
}.

Record Subscription := {
  receiver : nat;
  sub_clock : Z
}.

(** [Notifier::new]: the clock starts at 1. *)
Definition new : Notifier :=
  {| sender := {| ch_sent := []; ch_closed := false |}; clock := 1 |}.

Definition channel_send (v : Z) (c : Channel) : Channel :=
  {| ch_sent := c.(ch_sent) ++ [v]; ch_closed := c.(ch_closed) |}.

(** [Notifier::send]: [self.sender.send(self.clock.fetch_add(1, ..))].
    [fetch_add] returns the value held before the addition, so that is
    the value broadcast; the stored clock wraps at [2^64]. *)
Definition send (n : Notifier) : Notifier :=
  let previous := n.(clock) in
  {| sender := channel_send previous n.(sender);
     clock := wrap_usize (previous + 1) |}.

(** [Notifier::subscribe]: a new receiver sees only values sent after
    it was created; then the clock is read. *)
Definition subscribe (n : Notifier) : Subscription :=
  {| receiver := length n.(sender).(ch_sent); sub_clock := n.(clock) |}.

Inductive RecvResult :=
| RecvValue (v : Z)
| RecvLagged (skipped : nat)
| RecvClosed
| RecvEmpty.

(** [Receiver::recv] as it finds the channel when the receiving task is
    polled: a receiver more than [CAPACITY] values behind gets
    [Lagged] and jumps to the oldest retained value; otherwise it gets
    the next value; with nothing to read it gets [Closed] once the
    sender is gone, and otherwise keeps waiting ([RecvEmpty]). *)
Definition recv (rx : nat) (c : Channel) : RecvResult * nat :=
  let tail := length c.(ch_sent) in
  if Nat.ltb (rx + CAPACITY) tail
  then (RecvLagged (tail - CAPACITY - rx), tail - CAPACITY)%nat
  else match c.(ch_sent) !! rx with
       | Some v => (RecvValue v, S rx)
       | None => (if c.(ch_closed) then RecvClosed else RecvEmpty, rx)
       end.

(** [Subscription::wait(since)]. The channel argument is the channel as
    the receiver finds it when the waiting task is woken, or when the
    5-second timer fires; in the latter case nothing was there to read
    ([RecvEmpty]) and [timeout] returns [Err(Elapsed)]. *)
Definition wait (s : Subscription) (since : Z) (c : Channel)
  : Result Z * Subscription :=
  if since <? s.(sub_clock) then (Ok s.(sub_clock), s)
  else
    let (r, rx') := recv s.(receiver) c in
    let s' := {| receiver := rx'; sub_clock := s.(sub_clock) |} in
    match r with
    | RecvValue clk => (Ok clk, s')
    | RecvLagged _ | RecvClosed => (Err NotifierError, s')
    | RecvEmpty => (Ok s.(sub_clock), s')
    end.

(** [send] broadcasts the clock value it found, not the incremented one. *)
Lemma send_broadcasts_previous n :
  last (send n).(sender).(ch_sent) = Some n.(clock).
Proof. unfold send, channel_send; cbn. by rewrite last_snoc. Qed.

Lemma send_increments n : (send n).(clock) = wrap_usize (n.(clock) + 1).
Proof. reflexivity. Qed.

(** Nine sends without a read leave a fresh receiver lagged. *)
Fixpoint send_n (k : nat) (n : Notifier) : Notifier :=
  match k with O => n | S k' => send_n k' (send n) end.

Example wait_after_one_send :
  let n0 := new in
  let s := subscribe n0 in
  fst (wait s s.(sub_clock) (send n0).(sender)) = Ok 1.
Proof. reflexivity. Qed.

(** C1. On a fresh notifier (clock 1) a subscription snapshots C = 1;
    one [send] afterwards broadcasts 1 (the value before the increment)
    while the clock becomes 2, and [wait(C)] returns 1, which is not
    greater than C. After nine sends the receiver has lagged and
    [wait(C)] returns the notification error instead of a value. *)
Theorem wait_after_send_not_greater :
  let n0 := new in
  let s := subscribe n0 in
  s.(sub_clock) = 1 /\
  (send n0).(clock) = 2 /\
  (send n0).(sender).(ch_sent) = [1] /\
  fst (wait s s.(sub_clock) (send n0).(sender)) = Ok 1 /\
  fst (wait s s.(sub_clock) (send_n 9 n0).(sender)) = Err NotifierError.
Proof. vm_compute. repeat split. Qed.

(** C2. Outcomes of [Subscription::wait(since)]: with [since] below
    the snapshot clock it returns the snapshot without touching the
    receiver (no suspension); when the timer fires with no broadcast
    to read it returns the snapshot clock as a success; when the
    sender is gone and nothing is left to read it returns the internal
    notification error. *)
Theorem wait_result_semantics (s : Subscription) (since : Z) (c : Channel) :
  (since < s.(sub_clock) -> wait s since c = (Ok s.(sub_clock), s)) /\
  (s.(sub_clock) <= since ->
   (length c.(ch_sent) <= s.(receiver))%nat -> c.(ch_closed) = false ->
   fst (wait s since c) = Ok s.(sub_clock)) /\
  (s.(sub_clock) <= since ->
   (length c.(ch_sent) <= s.(receiver))%nat -> c.(ch_closed) = true ->
   fst (wait s since c) = Err NotifierError).
Proof.
  unfold wait, recv.
  split; [| split]; intros Hs.
  - by rewrite (proj2 (Z.ltb_lt _ _) Hs).
  - intros Hlen Hcl. rewrite (proj2 (Z.ltb_ge _ _) Hs).
    rewrite (proj2 (Nat.ltb_ge _ _)) by lia.
    rewrite (proj2 (lookup_ge_None _ _) Hlen), Hcl. reflexivity.
  - intros Hlen Hcl. rewrite (proj2 (Z.ltb_ge _ _) Hs).
    rewrite (proj2 (Nat.ltb_ge _ _)) by lia.
    rewrite (proj2 (lookup_ge_None _ _) Hlen), Hcl. reflexivity.
Qed.

Lemma wait_result_semantics_witness :
  fst (wait {| receiver := 0; sub_clock := 1 |} 1
         {| ch_sent := []; ch_closed := false |}) = Ok 1 /\
  fst (wait {| receiver := 0; sub_clock := 1 |} 1
         {| ch_sent := []; ch_closed := true |}) = Err NotifierError /\
  wait {| receiver := 0; sub_clock := 2 |} 1
       {| ch_sent := [5]; ch_closed := false |} =
    (Ok 2, {| receiver := 0; sub_clock := 2 |}).
Proof.
  split; [|split].
  - apply (proj1 (proj2 (wait_result_semantics
      {| receiver := 0; sub_clock := 1 |} 1 {| ch_sent := []; ch_closed := false |})));
      cbn; [lia | lia | reflexivity].
  - apply (proj2 (proj2 (wait_result_semantics
      {| receiver := 0; sub_clock := 1 |} 1 {| ch_sent := []; ch_closed := true |})));
      cbn; [lia | lia | reflexivity].
  - apply (proj1 (wait_result_semantics
      {| receiver := 0; sub_clock := 2 |} 1 {| ch_sent := [5]; ch_closed := false |})).
    cbn; lia.
Defined.

End Notify.

(* ------------------------------------------------------------------ *)
(** ** game/search.rs: the search engine *)

Module Search.

(** [struct GameSummary]; [last_updated] is the timestamp as a [Z]. *)
Record GameSummary := {
  game_id : GameId;
  game_type : GameType;
  players : list string;
  stage : Stage;
  last_updated : Z
}.

Module SortOrder.
Inductive t := Asc | Desc.
End SortOrder.

Module SortKey.
Inductive t := GameType | Players | Stage | LastUpdated.
End SortKey.

Record SearchOptions := {
  page : Z;
  sort_order : SortOrder.t;
  sort_key : SortKey.t;
  o_game_type : option GameType;
  o_players : option nat;
  o_stage : option Stage
}.

(** [const LIST_GAME_SUMMARY_COUNT: usize = 20] *)
Definition LIST_GAME_SUMMARY_COUNT : Z := 20.

(** [SearchEngine::next_sort_key] *)
Definition next_sort_key (k : SortKey.t) : SortKey.t :=
  match k with
  | SortKey.GameType => SortKey.Players
  | SortKey.Players => SortKey.Stage
  | SortKey.Stage => SortKey.LastUpdated
  | SortKey.LastUpdated => SortKey.GameType
  end.

(** The [match current_sort_key] in the loop body. *)
Definition compare_by_key (k : SortKey.t) (a b : GameSummary) : comparison :=
  match k with
  | SortKey.GameType => game_type_cmp a.(game_type) b.(game_type)
  | SortKey.Players => Nat.compare (length a.(players)) (length b.(players))
  | SortKey.Stage => stage_cmp a.(stage) b.(stage)
  | SortKey.LastUpdated => Z.compare a.(last_updated) b.(last_updated)
  end.

(** [for _ in 0..4 { ordering = ..; match ordering { Equal =>
    current_sort_key = next_sort_key(..), _ => break } }], with the
    iterations left, the current key and the current ordering. *)
Fixpoint compare_loop (a b : GameSummary) (iters : nat)
    (current_sort_key : SortKey.t) (ordering : comparison) : comparison :=
  match iters with
  | O => ordering
  | S iters' =>
      let ordering := compare_by_key current_sort_key a b in
      match ordering with
      | Eq => compare_loop a b iters' (next_sort_key current_sort_key) ordering
      | _ => ordering
      end
  end.

(** [SearchEngine::compare_summaries] *)
Definition compare_summaries (a b : GameSummary) (sort_key : SortKey.t)
    (sort_order : SortOrder.t) : comparison :=
  let ordering := compare_loop a b 4 sort_key Eq in
  match sort_order with
  | SortOrder.Asc => ordering
  | SortOrder.Desc => CompOpp ordering
  end.

(** [Itertools::sorted_by] collects and calls the stable [slice::sort_by].
    Stable insertion: an element goes after every element it does not
    compare [Less] to, so equal elements keep their input order. For a
    comparator that is a total preorder (as [compare_summaries] is) every
    stable sort gives this same list. *)
Fixpoint insert_by {A} (cmp : A -> A -> comparison) (x : A) (l : list A) : list A :=
  match l with
  | [] => [x]
  | y :: l' =>
      match cmp x y with
      | Lt => x :: l
      | _ => y :: insert_by cmp x l'
      end
  end.

Definition sorted_by {A} (cmp : A -> A -> comparison) (l : list A) : list A :=
  fold_left (fun acc x => insert_by cmp x acc) l [].

Definition game_type_eqb (a b : GameType) : bool := true.

Definition filter_game_type (o : option GameType) (s : GameSummary) : bool :=
  match o with None => true | Some x => game_type_eqb s.(game_type) x end.
Definition filter_players (o : option nat) (s : GameSummary) : bool :=
  match o with None => true | Some x => Nat.eqb (length s.(players)) x end.
Definition filter_stage (o : option Stage) (s : GameSummary) : bool :=
  match o with None => true | Some x => stage_eqb s.(stage) x end.

(** [SearchEngine::apply] in a release build; [summaries] is the
    iterator's sequence. The page is a [usize] and overflow checks are off,
    so [(page - 1) * LIST_GAME_SUMMARY_COUNT] wraps; [apply_debug] below is
    the debug build. *)
Definition apply (summaries : list GameSummary) (options : SearchOptions)
  : Result (list GameSummary) :=
  let page := options.(page) in
  if page =? 0 then Err (ManagerError InvalidPage)
  else
    let skip := wrap_usize ((page - 1) * LIST_GAME_SUMMARY_COUNT) in
    Ok (take (Z.to_nat LIST_GAME_SUMMARY_COUNT)
          (List.filter (filter_stage options.(o_stage))
             (List.filter (filter_players options.(o_players))
                (List.filter (filter_game_type options.(o_game_type))
                   (drop (Z.to_nat skip)
                      (sorted_by (fun a b =>
                         compare_summaries a b options.(sort_key) options.(sort_order))
                         summaries)))))).


(** [SearchEngine::apply] in a debug build, where [overflow-checks] are on:
    [(page - 1) * LIST_GAME_SUMMARY_COUNT] panics when the product does
    not fit in a [usize], before the iterator is pulled. *)
Definition overflow_msg : string := "attempt to multiply with overflow".

Definition apply_debug (summaries : list GameSummary) (options : SearchOptions)
  : Result (list GameSummary) :=
  let page := options.(page) in
  if page =? 0 then Err (ManagerError InvalidPage)
  else
    let product := (page - 1) * LIST_GAME_SUMMARY_COUNT in
    if usize_modulus <=? product then Panic overflow_msg
    else
      let skip := product in
      Ok (take (Z.to_nat LIST_GAME_SUMMARY_COUNT)
            (List.filter (filter_stage options.(o_stage))
               (List.filter (filter_players options.(o_players))
                  (List.filter (filter_game_type options.(o_game_type))
                     (drop (Z.to_nat skip)
                        (sorted_by (fun a b =>
                           compare_summaries a b options.(sort_key) options.(sort_order))
                           summaries)))))).

(** The summaries after sorting, in the order [apply] consumes them. *)
Definition sorted_summaries (summaries : list GameSummary) (o : SearchOptions) :=
  sorted_by (fun a b => compare_summaries a b o.(sort_key) o.(sort_order)) summaries.

Definition matches (o : SearchOptions) (s : GameSummary) : bool :=
  filter_game_type o.(o_game_type) s &&
  (filter_players o.(o_players) s && filter_stage o.(o_stage) s).

Lemma filter_filter_andb {A} (f g : A -> bool) (l : list A) :
  List.filter g (List.filter f l) = List.filter (fun x => f x && g x) l.
Proof.
  induction l as [|x l IH]; cbn; [done|].
  destruct (f x); cbn; [destruct (g x); cbn; rewrite IH|]; done.
Qed.

(** For pages whose skip fits in a [usize], [apply] sorts, skips
    [(page - 1) * 20] entries of the sorted sequence, filters, then
    takes at most 20. *)
Lemma apply_pipeline (summaries : list GameSummary) (o : SearchOptions) :
  1 <= o.(page) -> (o.(page) - 1) * LIST_GAME_SUMMARY_COUNT < usize_modulus ->
  apply summaries o =
  Ok (take 20 (List.filter (matches o)
       (drop (Z.to_nat ((o.(page) - 1) * 20)) (sorted_summaries summaries o)))).
Proof.
  intros H1 H2. unfold apply, wrap_usize, LIST_GAME_SUMMARY_COUNT in *.
  rewrite (proj2 (Z.eqb_neq _ _)) by lia.
  rewrite Z.mod_small by lia.
  rewrite !filter_filter_andb. reflexivity.
Qed.

(** While [(page - 1) * 20] fits in a [usize], the debug and the release
    builds of [apply] agree. *)
Lemma apply_debug_release (summaries : list GameSummary) (o : SearchOptions) :
  1 <= o.(page) -> (o.(page) - 1) * LIST_GAME_SUMMARY_COUNT < usize_modulus ->
  apply_debug summaries o = apply summaries o.
Proof.
  intros H1 H2. unfold apply_debug, apply, wrap_usize.
  destruct (o.(page) =? 0); [done|].
  rewrite (proj2 (Z.leb_gt _ _) H2).
  rewrite Z.mod_small; [done|]. unfold LIST_GAME_SUMMARY_COUNT in *. lia.
Qed.

Example apply_page_zero (l : list GameSummary) o :
  o.(page) = 0 -> apply l o = Err (ManagerError InvalidPage).
Proof. intros H. unfold apply. by rewrite H. Qed.

Definition summary0 : GameSummary :=
  {| game_id := [0; 0; 0; 0]; game_type := Connect4; players := [];
     stage := Waiting; last_updated := 0 |}.

(** A page number whose skip overflows: [(2^62) * 20 = 5 * 2^64]. *)
Definition huge_page_options : SearchOptions :=
  {| page := 2 ^ 62 + 1; sort_order := SortOrder.Asc;
     sort_key := SortKey.GameType; o_game_type := None; o_players := None;
     o_stage := None |}.

(** C3. With one summary and page [2^62 + 1], skipping
    [(page - 1) * 20] entries of the sorted sequence leaves nothing, but
    [apply] computes the skip in [usize], where it wraps to 0, and
    returns the first page. *)
Theorem apply_huge_page_returns_first_page :
  apply [summary0] huge_page_options = Ok [summary0] /\
  drop (Z.to_nat ((huge_page_options.(page) - 1) * 20))
       (sorted_summaries [summary0] huge_page_options) = [].
Proof.
  split; [vm_compute; reflexivity|].
  apply drop_ge. cbn [length sorted_summaries sorted_by fold_left insert_by].
  cbn [huge_page_options page]. lia.
Qed.

(** The key ring starting at [k]. *)
Definition ring_from (k : SortKey.t) : list SortKey.t :=
  [k; next_sort_key k; next_sort_key (next_sort_key k);
   next_sort_key (next_sort_key (next_sort_key k))].

Fixpoint first_non_eq (l : list comparison) : comparison :=
  match l with
  | [] => Eq
  | Eq :: l' => first_non_eq l'
  | c :: _ => c
  end.

(** C4. The comparator takes the first non-equal comparison along the
    ring of the four keys starting at the requested key (ring order
    GameType, Players, Stage, LastUpdated, back to GameType), or Equal
    when all four tie; the Desc result is the reverse of the Asc result
    for the same pair, so both orders break ties along the same chain;
    and swapping the pair reverses the result. *)
Theorem compare_summaries_ring (a b : GameSummary) (k : SortKey.t) :
  ring_from SortKey.GameType =
    [SortKey.GameType; SortKey.Players; SortKey.Stage; SortKey.LastUpdated] /\
  next_sort_key SortKey.LastUpdated = SortKey.GameType /\
  NoDup (ring_from k) /\
  compare_summaries a b k SortOrder.Asc =
    first_non_eq (map (fun k' => compare_by_key k' a b) (ring_from k)) /\
  compare_summaries a b k SortOrder.Desc =
    CompOpp (compare_summaries a b k SortOrder.Asc) /\
  (forall o, compare_summaries b a k o = CompOpp (compare_summaries a b k o)).
Proof.
  assert (Hanti : forall k', compare_by_key k' b a = CompOpp (compare_by_key k' a b)).
  { intros []; cbn; [done | apply Nat.compare_antisym | | apply Z.compare_antisym].
    unfold stage_cmp. apply Nat.compare_antisym. }
  split; [done|]. split; [done|].
  split; [destruct k; cbn; repeat constructor; set_solver|].
  split.
  { unfold compare_summaries. destruct k; cbn; repeat case_match; done. }
  split; [done|].
  assert (Hloop : forall n k' o,
    compare_loop b a n k' (CompOpp o) = CompOpp (compare_loop a b n k' o)).
  { induction n as [|n IH]; intros k' o; [done|]. cbn. rewrite Hanti.
    destruct (compare_by_key k' a b); cbn; [apply (IH _ Eq)|done|done]. }
  intros o. unfold compare_summaries.
  change (compare_loop b a 4 k Eq) with (compare_loop b a 4 k (CompOpp Eq)).
  rewrite Hloop. by destruct o.
Qed.

End Search.

(* ------------------------------------------------------------------ *)
(** ** game/mod.rs: identifiers ([encode_id], [decode_id], [validate_id])

    [encode_id] and [decode_id] call [base32::encode] and
    [base32::decode] with [Alphabet::RFC4648 { padding: false }]; the
    crate's two functions are embedded here line by line. *)

Module Ids.

Definition is_byte (b : Z) : Prop := 0 <= b < 256.

(** [x << k] on a [u8]: the bits shifted past bit 7 are lost. *)
Definition u8_shl (x k : Z) : Z := Z.land (Z.shiftl x k) 255.

Definition RFC4648_ALPHABET : string := "ABCDEFGHIJKLMNOPQRSTUVWXYZ234567".

(** [alphabet[i]]; every index used below is a 5-bit value, so the
    default character is never produced. *)
Definition alphabet_at (i : Z) : ascii :=
  match String.get (Z.to_nat i) RFC4648_ALPHABET with
  | Some c => c
  | None => "?"%char
  end.

(** The eight [ret.push(alphabet[..])] lines of [base32::encode], one per
    5-bit digit of a 5-byte chunk [buf]. *)
Definition enc_d0 (b0 : Z) : Z := Z.shiftr (Z.land b0 248) 3.
Definition enc_d1 (b0 b1 : Z) : Z :=
  Z.lor (u8_shl (Z.land b0 7) 2) (Z.shiftr (Z.land b1 192) 6).
Definition enc_d2 (b1 : Z) : Z := Z.shiftr (Z.land b1 62) 1.
Definition enc_d3 (b1 b2 : Z) : Z :=
  Z.lor (u8_shl (Z.land b1 1) 4) (Z.shiftr (Z.land b2 240) 4).
Definition enc_d4 (b2 b3 : Z) : Z :=
  Z.lor (u8_shl (Z.land b2 15) 1) (Z.shiftr b3 7).
Definition enc_d5 (b3 : Z) : Z := Z.shiftr (Z.land b3 124) 2.
Definition enc_d6 (b3 b4 : Z) : Z :=
  Z.lor (u8_shl (Z.land b3 3) 3) (Z.shiftr (Z.land b4 224) 5).
Definition enc_d7 (b4 : Z) : Z := Z.land b4 31.

(** One [data.chunks(5)] chunk; [buf] is the chunk padded with zeros. *)
Definition encode_chunk (chunk : list Z) : list ascii :=
  let buf i := nth i chunk 0 in
  map alphabet_at
    [enc_d0 (buf 0%nat); enc_d1 (buf 0%nat) (buf 1%nat); enc_d2 (buf 1%nat);
     enc_d3 (buf 1%nat) (buf 2%nat); enc_d4 (buf 2%nat) (buf 3%nat);
     enc_d5 (buf 3%nat); enc_d6 (buf 3%nat) (buf 4%nat); enc_d7 (buf 4%nat)].

Fixpoint encode_groups (data : list Z) : list ascii :=
  match data with
  | [] => []
  | b0 :: b1 :: b2 :: b3 :: b4 :: rest =>
      encode_chunk [b0; b1; b2; b3; b4] ++ encode_groups rest
  | _ => encode_chunk data
  end.

(** [base32::encode(RFC4648 { padding: false }, data)]: the characters of
    a partial last chunk that carry no input bits are truncated. *)
Definition encode (data : list Z) : string :=
  let ret := encode_groups data in
  let r := (length data mod 5)%nat in
  if Nat.eqb r 0 then string_of_list_ascii ret
  else
    let num_extra := (8 - (r * 8 + 4) / 5)%nat in
    string_of_list_ascii (take (length ret - num_extra) ret).

(** [RFC4648_INV_ALPHABET], indexed by [c - b'0']. *)
Definition RFC4648_INV_ALPHABET : list Z :=
  [-1; -1; 26; 27; 28; 29; 30; 31; -1; -1; -1; -1; -1; 0; -1; -1; -1;
   0; 1; 2; 3; 4; 5; 6; 7; 8; 9; 10; 11; 12; 13; 14; 15; 16; 17; 18; 19;
   20; 21; 22; 23; 24; 25].

Definition is_ascii_char (c : ascii) : bool := Nat.ltb (nat_of_ascii c) 128.

Definition to_ascii_uppercase (c : ascii) : ascii :=
  let n := nat_of_ascii c in
  if Nat.leb 97 n && Nat.leb n 122 then ascii_of_nat (n - 32) else c.

(** [alphabet.get(c.to_ascii_uppercase().wrapping_sub(b'0') as usize)],
    where [Some(&-1) | None] rejects the character. *)
Definition lookup_char (c : ascii) : option Z :=
  let idx := (Z.of_nat (nat_of_ascii (to_ascii_uppercase c)) - 48) mod 256 in
  match RFC4648_INV_ALPHABET !! Z.to_nat idx with
  | Some v => if v =? -1 then None else Some v
  | None => None
  end.

(** The five [ret.push(..)] lines of [base32::decode] for a chunk of
    eight digits [buf] (missing digits are 0). *)
Definition dec_r0 (d0 d1 : Z) : Z := Z.lor (u8_shl d0 3) (Z.shiftr d1 2).
Definition dec_r1 (d1 d2 d3 : Z) : Z :=
  Z.lor (Z.lor (u8_shl d1 6) (u8_shl d2 1)) (Z.shiftr d3 4).
Definition dec_r2 (d3 d4 : Z) : Z := Z.lor (u8_shl d3 4) (Z.shiftr d4 1).
Definition dec_r3 (d4 d5 d6 : Z) : Z :=
  Z.lor (Z.lor (u8_shl d4 7) (u8_shl d5 2)) (Z.shiftr d6 3).
Definition dec_r4 (d6 d7 : Z) : Z := Z.lor (u8_shl d6 5) d7.

(** One [data.chunks(8)] chunk: an invalid character returns [None]. *)
Definition decode_chunk (chunk : list ascii) : option (list Z) :=
  match mapM lookup_char chunk with
  | None => None
  | Some ds =>
      let buf i := nth i ds 0 in
      Some [dec_r0 (buf 0%nat) (buf 1%nat);
            dec_r1 (buf 1%nat) (buf 2%nat) (buf 3%nat);
            dec_r2 (buf 3%nat) (buf 4%nat);
            dec_r3 (buf 4%nat) (buf 5%nat) (buf 6%nat);
            dec_r4 (buf 6%nat) (buf 7%nat)]
  end.

Fixpoint decode_groups (data : list ascii) : option (list Z) :=
  match data with
  | [] => Some []
  | c0 :: c1 :: c2 :: c3 :: c4 :: c5 :: c6 :: c7 :: rest =>
      match decode_chunk [c0; c1; c2; c3; c4; c5; c6; c7], decode_groups rest with
      | Some chunk, Some rest' => Some (chunk ++ rest')
      | _, _ => None
      end
  | _ => decode_chunk data
  end.

(** The loop [for i in 1..6.min(len) + 1] over the trailing ['=']
    characters, on the reversed data. *)
Fixpoint count_padding (rev_data : list ascii) (limit : nat) : nat :=
  match limit, rev_data with
  | S limit', c :: rest =>
      if Ascii.eqb c "=" then S (count_padding rest limit') else 0
  | _, _ => 0
  end%nat.

(** [base32::decode(RFC4648 { .. }, data)] *)
Definition decode (s : string) : option (list Z) :=
  let data := list_ascii_of_string s in
  if negb (forallb is_ascii_char data) then None
  else
    let len := length data in
    let unpadded := (len - count_padding (rev data) (Nat.min 6 len))%nat in
    let output_length := (unpadded * 5 / 8)%nat in
    match decode_groups data with
    | None => None
    | Some ret => Some (take output_length ret)
    end.

Definition encode_id (bytes : list Z) : string := encode bytes.
Definition decode_id (data : string) : option (list Z) := decode data.

Inductive ParseResult (A : Type) :=
| Parsed (a : A)
| InvalidId (msg : string).
Arguments Parsed {A} a.
Arguments InvalidId {A} msg.

(** [new_parse_id_error(id)] *)
Definition new_parse_id_error {A} (id : string) : ParseResult A :=
  InvalidId ("invalid id: " ++ id).

(** [validate_id(id, prefix)]; [&id[prefix.len()..]] is the suffix. *)
Definition validate_id (id prefix : string) : ParseResult (list Z) :=
  if negb (String.prefix prefix id) then new_parse_id_error id
  else
    match decode_id (substring (String.length prefix)
                       (String.length id - String.length prefix) id) with
    | Some v => Parsed v
    | None => new_parse_id_error id
    end.

(** [Display for GameId] / [SessionId]: ["game_{}"], ["session_{}"]. *)
Definition game_id_to_string (id : GameId) : string := "game_" ++ encode_id id.
Definition session_id_to_string (id : SessionId) : string := "session_" ++ encode_id id.

(** [GameIdVisitor::visit_str]: [validate_id] then [TryInto<[u8; 4]>]. *)
Definition parse_game_id (v : string) : ParseResult GameId :=
  match validate_id v "game_" with
  | InvalidId m => InvalidId m
  | Parsed vec => if Nat.eqb (length vec) 4 then Parsed vec else new_parse_id_error v
  end.

(** [SessionIdVisitor::visit_str]: [validate_id] then [TryInto<[u8; 16]>]. *)
Definition parse_session_id (v : string) : ParseResult SessionId :=
  match validate_id v "session_" with
  | InvalidId m => InvalidId m
  | Parsed vec => if Nat.eqb (length vec) 16 then Parsed vec else new_parse_id_error v
  end.

(** The RFC 4648 test vectors for "f", "fo", "foo", "foob", "fooba". *)
Example encode_vectors :
  map encode [[102]; [102; 111]; [102; 111; 111]; [102; 111; 111; 98];
              [102; 111; 111; 98; 97]] =
  ["MY"; "MZXQ"; "MZXW6"; "MZXW6YQ"; "MZXW6YTB"]%string.
Proof. vm_compute. reflexivity. Qed.

Example decode_vectors :
  map decode ["MY"; "MZXQ"; "mzxw6"; "MZXW6YQ"; "MZXW6YTB"]%string =
  [Some [102]; Some [102; 111]; Some [102; 111; 111]; Some [102; 111; 111; 98];
   Some [102; 111; 111; 98; 97]].
Proof. vm_compute. reflexivity. Qed.

Example game_id_example :
  game_id_to_string [1; 2; 3; 4] = "game_AEBAGBA"%string /\
  parse_game_id "game_AEBAGBA" = Parsed [1; 2; 3; 4] /\
  parse_game_id "game_AEBAGBAF" = new_parse_id_error "game_AEBAGBAF" /\
  parse_session_id "game_AEBAGBA" = new_parse_id_error "game_AEBAGBA".
Proof. vm_compute. repeat split. Qed.

(** *** Bit-level lemmas for the round trip *)

Lemma testbit_byte_high b n : 0 <= b < 256 -> 8 <= n -> Z.testbit b n = false.
Proof.
  intros Hb Hn. rewrite <- (Z.mod_small b (2 ^ 8)) by (cbn; lia).
  apply Z.mod_pow2_bits_high. lia.
Qed.

Lemma shiftl_testbit a k n :
  Z.testbit (Z.shiftl a k) n = negb (n <? 0) && Z.testbit a (n - k).
Proof.
  destruct (Z.ltb_spec n 0).
  - by rewrite Z.testbit_neg_r.
  - by apply Z.shiftl_spec.
Qed.

Lemma shiftr_testbit a k n :
  Z.testbit (Z.shiftr a k) n = negb (n <? 0) && Z.testbit a (n + k).
Proof.
  destruct (Z.ltb_spec n 0).
  - by rewrite Z.testbit_neg_r.
  - by apply Z.shiftr_spec.
Qed.

(** A bit of the result at a fixed position below 8: expand every
    bitwise operation, name the bits of the variables, and compute. *)
Ltac bits_low :=
  repeat rewrite ?Z.lor_spec, ?Z.land_spec, ?shiftl_testbit, ?shiftr_testbit;
  repeat match goal with
  | |- context [Z.testbit ?x ?i] =>
      is_var x; first [ rewrite (testbit_byte_high x i) by lia
                      | rewrite (Z.testbit_neg_r x i) by lia ]
  end;
  repeat match goal with
  | b : Z |- context [Z.testbit ?b' _] => constr_eq b b'; generalize (Z.testbit b); intro
  end;
  cbv; try reflexivity; btauto.

(** A bit at a position from 8 up: every byte-sized operand is 0 there. *)
Ltac bits_high :=
  repeat rewrite ?Z.lor_spec, ?Z.land_spec, ?shiftl_testbit, ?shiftr_testbit;
  repeat match goal with
  | |- context [Z.testbit ?x ?i] => rewrite (testbit_byte_high x i) by lia
  end;
  rewrite ?andb_false_r, ?andb_false_l, ?orb_false_r, ?orb_false_l; reflexivity.

Ltac byte_eq :=
  unfold dec_r0, dec_r1, dec_r2, dec_r3, dec_r4, enc_d0, enc_d1, enc_d2,
    enc_d3, enc_d4, enc_d5, enc_d6, enc_d7, u8_shl, is_byte in *;
  apply Z.bits_inj'; intros n Hn;
  destruct (Z.lt_ge_cases n 8) as [Hl|Hh];
  [ assert (n = 0 \/ n = 1 \/ n = 2 \/ n = 3 \/ n = 4 \/ n = 5 \/ n = 6 \/ n = 7)
      as Hc by lia;
    repeat destruct Hc as [->|Hc]; try subst n; bits_low
  | bits_high ].

Lemma dec_r0_enc b0 b1 : is_byte b0 -> is_byte b1 ->
  dec_r0 (enc_d0 b0) (enc_d1 b0 b1) = b0.
Proof. intros. byte_eq. Qed.

Lemma dec_r1_enc b0 b1 b2 : is_byte b0 -> is_byte b1 -> is_byte b2 ->
  dec_r1 (enc_d1 b0 b1) (enc_d2 b1) (enc_d3 b1 b2) = b1.
Proof. intros. byte_eq. Qed.

Lemma dec_r2_enc b1 b2 b3 : is_byte b1 -> is_byte b2 -> is_byte b3 ->
  dec_r2 (enc_d3 b1 b2) (enc_d4 b2 b3) = b2.
Proof. intros. byte_eq. Qed.

Lemma dec_r3_enc b2 b3 b4 : is_byte b2 -> is_byte b3 -> is_byte b4 ->
  dec_r3 (enc_d4 b2 b3) (enc_d5 b3) (enc_d6 b3 b4) = b3.
Proof. intros. byte_eq. Qed.

Lemma dec_r4_enc b3 b4 : is_byte b3 -> is_byte b4 ->
  dec_r4 (enc_d6 b3 b4) (enc_d7 b4) = b4.
Proof. intros. byte_eq. Qed.

(** *** Character-level lemmas, checked over all bytes *)

Definition byte_range : list Z := map Z.of_nat (seq 0 256).

Lemma byte_in_range b : is_byte b -> In b byte_range.
Proof.
  intros [H1 H2]. apply in_map_iff. exists (Z.to_nat b). split; [lia|].
  apply in_seq. lia.
Qed.

Lemma forall_bytes1 (f : Z -> bool) :
  forallb f byte_range = true -> forall a, is_byte a -> f a = true.
Proof.
  intros H a Ha. rewrite forallb_forall in H. by apply H, byte_in_range.
Qed.

Lemma forall_bytes2 (f : Z -> Z -> bool) :
  forallb (fun a => forallb (f a) byte_range) byte_range = true ->
  forall a b, is_byte a -> is_byte b -> f a b = true.
Proof.
  intros H a b Ha Hb. rewrite forallb_forall in H.
  specialize (H a (byte_in_range a Ha)). rewrite forallb_forall in H.
  by apply H, byte_in_range.
Qed.

Definition char_roundtrips (d : Z) : bool :=
  match lookup_char (alphabet_at d) with Some v => v =? d | None => false end.

Lemma char_roundtrips_ok d :
  char_roundtrips d = true -> lookup_char (alphabet_at d) = Some d.
Proof.
  unfold char_roundtrips. destruct (lookup_char _); [|done].
  intros H. by rewrite (Z.eqb_eq _ _) in H; subst.
Qed.

Lemma lookup_enc_d0 a : is_byte a -> lookup_char (alphabet_at (enc_d0 a)) = Some (enc_d0 a).
Proof.
  intros. apply char_roundtrips_ok. revert a H.
  apply (forall_bytes1 (fun a => char_roundtrips (enc_d0 a))). by vm_compute.
Qed.
Lemma lookup_enc_d1 a b : is_byte a -> is_byte b ->
  lookup_char (alphabet_at (enc_d1 a b)) = Some (enc_d1 a b).
Proof.
  intros. apply char_roundtrips_ok. revert a b H H0.
  apply (forall_bytes2 (fun a b => char_roundtrips (enc_d1 a b))). by vm_compute.
Qed.
Lemma lookup_enc_d2 a : is_byte a -> lookup_char (alphabet_at (enc_d2 a)) = Some (enc_d2 a).
Proof.
  intros. apply char_roundtrips_ok. revert a H.
  apply (forall_bytes1 (fun a => char_roundtrips (enc_d2 a))). by vm_compute.
Qed.
Lemma lookup_enc_d3 a b : is_byte a -> is_byte b ->
  lookup_char (alphabet_at (enc_d3 a b)) = Some (enc_d3 a b).
Proof.
  intros. apply char_roundtrips_ok. revert a b H H0.
  apply (forall_bytes2 (fun a b => char_roundtrips (enc_d3 a b))). by vm_compute.
Qed.
Lemma lookup_enc_d4 a b : is_byte a -> is_byte b ->
  lookup_char (alphabet_at (enc_d4 a b)) = Some (enc_d4 a b).
Proof.
  intros. apply char_roundtrips_ok. revert a b H H0.
  apply (forall_bytes2 (fun a b => char_roundtrips (enc_d4 a b))). by vm_compute.
Qed.
Lemma lookup_enc_d5 a : is_byte a -> lookup_char (alphabet_at (enc_d5 a)) = Some (enc_d5 a).
Proof.
  intros. apply char_roundtrips_ok. revert a H.
  apply (forall_bytes1 (fun a => char_roundtrips (enc_d5 a))). by vm_compute.
Qed.
Lemma lookup_enc_d6 a b : is_byte a -> is_byte b ->
  lookup_char (alphabet_at (enc_d6 a b)) = Some (enc_d6 a b).
Proof.
  intros. apply char_roundtrips_ok. revert a b H H0.
  apply (forall_bytes2 (fun a b => char_roundtrips (enc_d6 a b))). by vm_compute.
Qed.
Lemma lookup_enc_d7 a : is_byte a -> lookup_char (alphabet_at (enc_d7 a)) = Some (enc_d7 a).
Proof.
  intros. apply char_roundtrips_ok. revert a H.
  apply (forall_bytes1 (fun a => char_roundtrips (enc_d7 a))). by vm_compute.
Qed.

(** Every character [alphabet_at] produces is ASCII and is not ['=']. *)
Lemma is_ascii_alphabet i : is_ascii_char (alphabet_at i) = true.
Proof.
  unfold alphabet_at. generalize (Z.to_nat i) as n. intros n.
  do 32 (destruct n as [|n]; [reflexivity|]). reflexivity.
Qed.

Lemma alphabet_not_pad i : Ascii.eqb (alphabet_at i) "=" = false.
Proof.
  unfold alphabet_at. generalize (Z.to_nat i) as n. intros n.
  do 32 (destruct n as [|n]; [reflexivity|]). reflexivity.
Qed.

(** *** The round trip and the rejections *)

Ltac byte_side := unfold is_byte in *; lia.

Ltac id_eval :=
  cbn -[alphabet_at lookup_char is_ascii_char enc_d0 enc_d1 enc_d2 enc_d3
        enc_d4 enc_d5 enc_d6 enc_d7 dec_r0 dec_r1 dec_r2 dec_r3 dec_r4].

(** Destructure a list of known length whose elements are all bytes. *)
Ltac byte_list id :=
  let Hl := fresh in let Hb := fresh in
  intros Hl Hb;
  repeat (destruct id as [|? id]; [discriminate Hl|]);
  destruct id; [|discriminate Hl];
  repeat match goal with
  | H : Forall _ (_ :: _) |- _ => apply Forall_cons in H as [? H]
  end.

Lemma game_id_roundtrip id :
  length id = 4%nat -> Forall is_byte id ->
  parse_game_id (game_id_to_string id) = Parsed id.
Proof.
  byte_list id.
  unfold parse_game_id, game_id_to_string, validate_id, encode_id, decode_id,
    encode, decode.
  id_eval. unfold String.append. id_eval.
  rewrite ?is_ascii_alphabet, ?alphabet_not_pad.
  unfold decode_chunk. id_eval.
  rewrite lookup_enc_d0, lookup_enc_d1, lookup_enc_d2, lookup_enc_d3,
    lookup_enc_d4, lookup_enc_d5, lookup_enc_d6 by byte_side.
  id_eval.
  rewrite dec_r0_enc, dec_r1_enc, dec_r2_enc, dec_r3_enc by byte_side.
  reflexivity.
Qed.

Lemma session_id_roundtrip id :
  length id = 16%nat -> Forall is_byte id ->
  parse_session_id (session_id_to_string id) = Parsed id.
Proof.
  byte_list id.
  unfold parse_session_id, session_id_to_string, validate_id, encode_id,
    decode_id, encode, decode.
  id_eval. unfold String.append. id_eval.
  rewrite ?is_ascii_alphabet, ?alphabet_not_pad.
  unfold decode_chunk. id_eval.
  rewrite ?lookup_enc_d0, ?lookup_enc_d1, ?lookup_enc_d2, ?lookup_enc_d3,
    ?lookup_enc_d4, ?lookup_enc_d5, ?lookup_enc_d6, ?lookup_enc_d7 by byte_side.
  id_eval.
  rewrite ?dec_r0_enc, ?dec_r1_enc, ?dec_r2_enc, ?dec_r3_enc, ?dec_r4_enc
    by byte_side.
  reflexivity.
Qed.

Lemma validate_id_prefix v prefix :
  String.prefix prefix v = false -> validate_id v prefix = new_parse_id_error v.
Proof. intros H. unfold validate_id. by rewrite H. Qed.

Lemma validate_id_suffix v prefix vec :
  validate_id v prefix = Parsed vec ->
  decode_id (substring (String.length prefix)
               (String.length v - String.length prefix) v) = Some vec.
Proof.
  unfold validate_id. destruct (negb _); [done|].
  destruct (decode_id _); [|done]. by intros [= ->].
Qed.

(** C8. Identifier round trip: for every 4-byte [GameId] and every
    16-byte [SessionId] (the values [new()] draws), parsing the text
    rendering gives the id back. Parsing returns the invalid-id error for
    every text that does not start with ["game_"] (["session_"]), and for
    every text whose suffix after the prefix does not base32-decode to
    exactly 4 (16) bytes. *)
Theorem id_roundtrip_and_rejection :
  (forall id, length id = 4%nat -> Forall is_byte id ->
     parse_game_id (game_id_to_string id) = Parsed id) /\
  (forall id, length id = 16%nat -> Forall is_byte id ->
     parse_session_id (session_id_to_string id) = Parsed id) /\
  (forall v, String.prefix "game_" v = false ->
     parse_game_id v = new_parse_id_error v) /\
  (forall v, String.prefix "session_" v = false ->
     parse_session_id v = new_parse_id_error v) /\
  (forall v, (forall vec, decode_id (substring 5 (String.length v - 5) v) = Some vec ->
                length vec <> 4%nat) ->
     parse_game_id v = new_parse_id_error v) /\
  (forall v, (forall vec, decode_id (substring 8 (String.length v - 8) v) = Some vec ->
                length vec <> 16%nat) ->
     parse_session_id v = new_parse_id_error v).
Proof.
  split; [exact game_id_roundtrip|].
  split; [exact session_id_roundtrip|].
  split; [intros v H; unfold parse_game_id; by rewrite validate_id_prefix|].
  split; [intros v H; unfold parse_session_id; by rewrite validate_id_prefix|].
  split.
  - intros v H. unfold parse_game_id.
    destruct (validate_id v "game_") as [vec|m] eqn:E.
    + apply validate_id_suffix in E. apply H in E.
      by destruct (Nat.eqb_spec (length vec) 4).
    + unfold validate_id, new_parse_id_error in *.
      destruct (negb _); [congruence|]. destruct (decode_id _); congruence.
  - intros v H. unfold parse_session_id.
    destruct (validate_id v "session_") as [vec|m] eqn:E.
    + apply validate_id_suffix in E. apply H in E.
      by destruct (Nat.eqb_spec (length vec) 16).
    + unfold validate_id, new_parse_id_error in *.
      destruct (negb _); [congruence|]. destruct (decode_id _); congruence.
Qed.

Lemma id_roundtrip_and_rejection_witness :
  parse_game_id (game_id_to_string [1; 2; 3; 255]) = Parsed [1; 2; 3; 255] /\
  parse_session_id (session_id_to_string (repeat 7 16)) = Parsed (repeat 7 16) /\
  parse_game_id "gme_AEBAGBA" = new_parse_id_error "gme_AEBAGBA" /\
  parse_session_id "game_AEBAGBA" = new_parse_id_error "game_AEBAGBA" /\
  parse_game_id "game_AEBAGBAF" = new_parse_id_error "game_AEBAGBAF" /\
  parse_session_id "session_AEBAGBA" = new_parse_id_error "session_AEBAGBA".
Proof.
  destruct id_roundtrip_and_rejection as (H1 & H2 & H3 & H4 & H5 & H6).
  split; [apply H1; [reflexivity | repeat constructor; byte_side]|].
  split; [apply H2; [reflexivity | repeat constructor; byte_side]|].
  split; [apply H3; reflexivity|].
  split; [apply H4; reflexivity|].
  split; [apply H5; intros vec Hv; vm_compute in Hv; injection Hv as <-; discriminate|].
  apply H6; intros vec Hv; vm_compute in Hv; injection Hv as <-; discriminate.
Defined.

End Ids.

(* ------------------------------------------------------------------ *)
(** ** adapter.rs: the game adapter interface *)

Module Adapter.

#[local] Set Warnings "-register-all".

(** [serde_json::Value]; an object is the list of its entries. *)
Inductive Value :=
| VNull
| VBool (b : bool)
| VNumber (n : Z)
| VString (s : string)
| VArray (l : list Value)
| VObject (entries : list (string * Value)).

(** [Map::insert] on a JSON object: replace the entry of the key, or add
    one. *)
Fixpoint object_insert (k : string) (v : Value) (m : list (string * Value))
  : list (string * Value) :=
  match m with
  | [] => [(k, v)]
  | (k', v') :: rest =>
      if String.eqb k k' then (k, v) :: rest else (k', v') :: object_insert k v rest
  end.

Record GenericGameState := {
  gs_players : list string;
  can_move : list string;
  winners : list string;
  gs_stage : Stage;
  payload : Value
}.

Record GenericGameMove := {
  player : string;
  move_payload : Value
}.

(** [trait GameAdapter]; a [&mut self] method returns the new adapter
    state with its result. *)
Class GameAdapter (A : Type) := {
  new : GameId -> A;
  get_notifier : A -> Notify.Notifier;
  add_player : string -> A -> Result unit * A;
  has_player : A -> string -> bool;
  play_move : GenericGameMove -> A -> Result unit * A;
  get_stage : A -> Stage;
  get_encoded_state : A -> Result GenericGameState;
  get_user_from_token : A -> Result string;
  get_type : A -> GameType
}.

Definition adapter_err {A} (g : GameId) (t : GameAdapterErrorType) : Result A :=
  Err (AdapterError {| ae_game_id := g; error_type := t |}).

End Adapter.

(* ------------------------------------------------------------------ *)
(** ** connect4.rs: the Connect 4 adapter *)

Module Connect4.
Import Adapter.

Definition NUM_PLAYERS : nat := 2.
Definition ROW_SIZE : nat := 6.
Definition COL_SIZE : nat := 7.
Definition CONNECT_FOUR : Z := 4.

Inductive Token := Red | Blue.

Definition token_eqb (a b : Token) : bool :=
  match a, b with Red, Red | Blue, Blue => true | _, _ => false end.

(** [struct Connect4]; [board] is the vector of columns, bottom first. *)
Record Connect4 := {
  c4_game_id : GameId;
  completed : bool;
  turn : Token;
  board : list (list Token)
}.

Record Connect4Adapter := {
  game_id : GameId;
  players : list string;
  stage : Stage;
  notifier : Notify.Notifier;
  game : Connect4;
  winner : list string
}.

Definition unwrap_none_msg : string := "called `Option::unwrap()` on a `None` value".

(** [GameAdapter::new] *)
Definition new (g : GameId) : Connect4Adapter :=
  {| game_id := g; players := []; stage := Waiting; notifier := Notify.new;
     game := {| c4_game_id := g; completed := false; turn := Red;
                board := repeat [] COL_SIZE |};
     winner := [] |}.

Definition set_players (a : Connect4Adapter) ps st n : Connect4Adapter :=
  {| game_id := a.(game_id); players := ps; stage := st; notifier := n;
     game := a.(game); winner := a.(winner) |}.

(** [add_player]: two assertions, then push, then maybe start. *)
Definition add_player (username : string) (a : Connect4Adapter)
  : Result unit * Connect4Adapter :=
  if negb (Nat.ltb (length a.(players)) NUM_PLAYERS) then
    (Panic "assertion failed: self.players.len() < NUM_PLAYERS", a)
  else if negb (stage_eqb a.(stage) Waiting) then
    (Panic "assertion `left == right` failed", a)
  else
    let ps := a.(players) ++ [username] in
    let st := if Nat.eqb (length ps) NUM_PLAYERS then InProgress else a.(stage) in
    (Ok tt, set_players a ps st (Notify.send a.(notifier))).

(** [has_player]: [self.players.iter().any(|s| s.eq(username))] *)
Definition has_player (a : Connect4Adapter) (username : string) : bool :=
  existsb (String.eqb username) a.(players).

(** [get_user_from_token]: [self.players.get(i).unwrap().clone()] *)
Definition get_user_from_token (a : Connect4Adapter) : Result string :=
  let i := match a.(game).(turn) with Red => 0%nat | Blue => 1%nat end in
  match a.(players) !! i with
  | Some p => Ok p
  | None => Panic unwrap_none_msg
  end.

(** [Connect4::get_cell_at] *)
Definition get_cell_at (c : Connect4) (row col : Z) : option Token :=
  if (row <? 0) || (col <? 0) || (Z.of_nat ROW_SIZE <=? row) || (Z.of_nat COL_SIZE <=? col)
  then None
  else c.(board) !! Z.to_nat col ≫= fun column => column !! Z.to_nat row.

Definition set_board (c : Connect4) (b : list (list Token)) : Connect4 :=
  {| c4_game_id := c.(c4_game_id); completed := c.(completed); turn := c.(turn);
     board := b |}.

(** [Connect4::insert_move_if_legal]; [column] is a [usize]. *)
Definition insert_move_if_legal (column : Z) (c : Connect4) : Result unit * Connect4 :=
  if Z.of_nat COL_SIZE <=? column then
    (adapter_err c.(c4_game_id)
       (InvalidMove ("column " ++ pretty (Z.to_N column) ++ " does not exist")), c)
  else
    match c.(board) !! Z.to_nat column with
    | None => (Panic unwrap_none_msg, c)
    | Some col =>
        if Nat.leb ROW_SIZE (length col) then
          (adapter_err c.(c4_game_id)
             (InvalidMove ("column " ++ pretty (Z.to_N column) ++ " is already full")), c)
        else (Ok tt, set_board c (<[Z.to_nat column := col ++ [c.(turn)]]> c.(board)))
    end.

Definition switch_token (c : Connect4) : Connect4 :=
  {| c4_game_id := c.(c4_game_id); completed := c.(completed);
     turn := match c.(turn) with Red => Blue | Blue => Red end;
     board := c.(board) |}.

(** [col as isize] for a [usize] *)
Definition to_isize (x : Z) : Z := if x <? 2 ^ 63 then x else x - 2 ^ 64.

(** The [while] loop of [winning_move] for one direction: it counts the
    cells of the current token from [(row, col)] on. Every direction
    moves the row or the column, so the loop leaves the 6 x 7 grid within
    7 steps; [fuel] is 8. *)
Fixpoint count_run (c : Connect4) (fuel : nat) (row col drow dcol len : Z) : Z :=
  match fuel with
  | O => len
  | S fuel' =>
      match get_cell_at c row col with
      | Some t => if token_eqb t c.(turn)
                  then count_run c fuel' (row + drow) (col + dcol) drow dcol (len + 1)
                  else len
      | None => len
      end
  end.

(** Down, Left, Right, LU, RD, LD, RU *)
Definition direction_col : list Z := [0; -1; 1; -1; 1; -1; 1].
Definition direction_row : list Z := [-1; 0; 0; 1; -1; -1; 1].

(** [Connect4::winning_move] *)
Definition winning_move (c : Connect4) (column : Z) : Result bool :=
  if Z.of_nat COL_SIZE <=? column then Ok false
  else
    match c.(board) !! Z.to_nat column with
    | None => Panic unwrap_none_msg
    | Some col =>
        let row := wrap_usize (Z.of_nat (length col) - 1) in
        let lengths :=
          map (fun counter =>
                 count_run c 8 (to_isize row) (to_isize column)
                   (nth counter direction_row 0) (nth counter direction_col 0) 0)
              (seq 0 7) in
        let l i := nth i lengths 0 in
        Ok ((CONNECT_FOUR <=? l 0%nat)
            || existsb (fun pair => CONNECT_FOUR <? l (2 * pair + 1)%nat + l (2 * pair + 2)%nat)
                 (seq 0 3))
    end.

(** [Connect4::is_game_drawn] *)
Definition is_game_drawn (c : Connect4) : bool :=
  forallb (fun col => Nat.eqb (length col) ROW_SIZE) c.(board).

(** [Connect4::moves] *)
Definition moves (column : Z) (c : Connect4) : Result unit * Connect4 :=
  if c.(completed) then (adapter_err c.(c4_game_id) (InvalidGameStage Ended), c)
  else insert_move_if_legal column c.

(** [serde_json::from_value::<Connect4RequestPayload>]: an object with
    one [column] entry (other keys ignored) or a one-element array, the
    number a [usize]. *)
Definition as_usize (v : Value) : option Z :=
  match v with
  | VNumber n => if (0 <=? n) && (n <? usize_modulus) then Some n else None
  | _ => None
  end.

Definition parse_request_payload (v : Value) : option Z :=
  match v with
  | VObject entries =>
      match List.filter (fun e => String.eqb e.1 "column") entries with
      | [(_, n)] => as_usize n
      | _ => None
      end
  | VArray [n] => as_usize n
  | _ => None
  end.

Definition with_game (a : Connect4Adapter) (c : Connect4) : Connect4Adapter :=
  {| game_id := a.(game_id); players := a.(players); stage := a.(stage);
     notifier := a.(notifier); game := c; winner := a.(winner) |}.

(** The tail of [play_move] after the move is on the board. *)
Definition finish_move (a : Connect4Adapter) (win draw : bool) : Result unit * Connect4Adapter :=
  let winner_r :=
    if win then match get_user_from_token a with
                | Ok u => Ok (a.(winner) ++ [u])
                | Panic m => Panic m
                | Err e => Err e
                | Pending => Pending
                end
    else Ok a.(winner) in
  match winner_r with
  | Ok w =>
      let c := a.(game) in
      let c' := if win || draw
                then {| c4_game_id := c.(c4_game_id); completed := true;
                        turn := c.(turn); board := c.(board) |}
                else switch_token c in
      (Ok tt, {| game_id := a.(game_id); players := a.(players);
                 stage := if win || draw then Ended else a.(stage);
                 notifier := Notify.send a.(notifier); game := c'; winner := w |})
  | Panic m => (Panic m, a)
  | Err e => (Err e, a)
  | Pending => (Pending, a)
  end.

(** [play_move] *)
Definition play_move (mv : GenericGameMove) (a : Connect4Adapter)
  : Result unit * Connect4Adapter :=
  if stage_eqb a.(stage) Waiting then (adapter_err a.(game_id) (InvalidGameStage a.(stage)), a)
  else if stage_eqb a.(stage) Ended then (adapter_err a.(game_id) (InvalidGameStage a.(stage)), a)
  else
    match parse_request_payload mv.(move_payload) with
    | None => (Err SerdeError, a)
    | Some column =>
        match get_user_from_token a with
        | Panic m => (Panic m, a)
        | Err e => (Err e, a)
        | Pending => (Pending, a)
        | Ok p =>
            if negb (String.eqb p mv.(player)) then
              (adapter_err a.(game_id) (InvalidPlayer mv.(player)), a)
            else
              match moves column a.(game) with
              | (Ok _, c) =>
                  let a1 := with_game a c in
                  match winning_move c column with
                  | Ok win => finish_move a1 win (is_game_drawn c)
                  | Panic m => (Panic m, a1)
                  | Err e => (Err e, a1)
                  | Pending => (Pending, a1)
                  end
              | (Panic m, c) => (Panic m, with_game a c)
              | (Err e, c) => (Err e, with_game a c)
              | (Pending, c) => (Pending, with_game a c)
              end
        end
    end.

Definition get_stage (a : Connect4Adapter) : Stage := a.(stage).

(** [get_encoded_state]: each token is shown as its player's name,
    [self.players.get(0 or 1).unwrap()]. (The source also fills a field
    [game] that [GenericGameState] does not declare; it is left out.) *)
Definition encode_token (a : Connect4Adapter) (t : Token) : Result string :=
  let i := match t with Red => 0%nat | Blue => 1%nat end in
  match a.(players) !! i with
  | Some p => Ok p
  | None => Panic unwrap_none_msg
  end.

Fixpoint encode_column (a : Connect4Adapter) (col : list Token) : Result (list Value) :=
  match col with
  | [] => Ok []
  | t :: rest =>
      match encode_token a t, encode_column a rest with
      | Ok p, Ok ps => Ok (VString p :: ps)
      | Panic m, _ => Panic m
      | Ok _, Panic m => Panic m
      | _, _ => Pending
      end
  end.

Fixpoint encode_board (a : Connect4Adapter) (b : list (list Token)) : Result (list Value) :=
  match b with
  | [] => Ok []
  | col :: rest =>
      match encode_column a col, encode_board a rest with
      | Ok vs, Ok cols => Ok (VArray vs :: cols)
      | Panic m, _ => Panic m
      | Ok _, Panic m => Panic m
      | _, _ => Pending
      end
  end.

Definition get_encoded_state (a : Connect4Adapter) : Result GenericGameState :=
  match encode_board a a.(game).(board) with
  | Ok cells =>
      let can_move_r :=
        if stage_eqb a.(stage) InProgress
        then match get_user_from_token a with
             | Ok u => Ok [u] | Panic m => Panic m | Err e => Err e | Pending => Pending
             end
        else Ok [] in
      match can_move_r with
      | Ok cm =>
          Ok {| gs_players := a.(players); can_move := cm; winners := a.(winner);
                gs_stage := a.(stage); payload := VObject [("cells", VArray cells)] |}
      | Panic m => Panic m
      | Err e => Err e
      | Pending => Pending
      end
  | Panic m => Panic m
  | Err e => Err e
  | Pending => Pending
  end.

(** connect4.rs declares no [get_type]; the adapter's game type is
    [Connect4]. *)
Definition get_type (a : Connect4Adapter) : GameType := GameType_Connect4.

#[global] Instance Connect4Adapter_GameAdapter : GameAdapter Connect4Adapter := {
  Adapter.new := new;
  Adapter.get_notifier := notifier;
  Adapter.add_player := add_player;
  Adapter.has_player := has_player;
  Adapter.play_move := play_move;
  Adapter.get_stage := get_stage;
  Adapter.get_encoded_state := get_encoded_state;
  Adapter.get_user_from_token := get_user_from_token;
  Adapter.get_type := get_type
}.

(** *** Stage monotonicity *)

(** The adapter calls the registry makes on a game. *)
Inductive AdapterOp :=
| OpAddPlayer (username : string)
| OpPlayMove (mv : GenericGameMove).

Definition apply_op (op : AdapterOp) (a : Connect4Adapter) : Result unit * Connect4Adapter :=
  match op with
  | OpAddPlayer u => add_player u a
  | OpPlayMove mv => play_move mv a
  end.

Fixpoint run_ops (ops : list AdapterOp) (a : Connect4Adapter) : Connect4Adapter :=
  match ops with
  | [] => a
  | op :: rest => run_ops rest (apply_op op a).2
  end.

Lemma finish_move_stage a win draw :
  stage (finish_move a win draw).2 = stage a \/
  ((finish_move a win draw).1 = Ok tt /\ stage (finish_move a win draw).2 = Ended).
Proof.
  unfold finish_move. repeat case_match; cbn; auto.
Qed.

Lemma apply_op_stage op a :
  (stage_index (stage a) <= stage_index (stage (apply_op op a).2))%nat /\
  (stage a = Ended -> (apply_op op a).1 <> Ok tt /\ stage (apply_op op a).2 = Ended).
Proof.
  destruct op as [u|mv]; cbn.
  - unfold add_player, set_players.
    destruct (stage a) eqn:Hs; cbn; repeat case_match; cbn; rewrite ?Hs;
      split; try (cbn; lia); intros; try split; congruence.
  - unfold play_move.
    destruct (stage a) eqn:Hs; cbn; rewrite ?Hs;
      [split; [cbn; lia|intros; discriminate]
      |
      |split; [cbn; lia|intros; split; [unfold adapter_err; discriminate|done]]].
    split; [|intros; discriminate].
    repeat case_match; cbn; rewrite ?Hs; cbn; try lia.
    match goal with
    | |- context [finish_move ?a1 ?w ?d] =>
        destruct (finish_move_stage a1 w d) as [E|[_ E]]; rewrite E; cbn;
        rewrite ?Hs; cbn; lia
    end.
Qed.

Lemma run_ops_app ops1 ops2 a :
  run_ops (ops1 ++ ops2) a = run_ops ops2 (run_ops ops1 a).
Proof. revert a. induction ops1 as [|op rest IH]; intros a; cbn; auto. Qed.

Lemma run_ops_mono ops a :
  (stage_index (stage a) <= stage_index (stage (run_ops ops a)))%nat.
Proof.
  revert a. induction ops as [|op rest IH]; intros a; cbn; [lia|].
  etrans; [apply (apply_op_stage op a)|apply IH].
Qed.

Lemma run_ops_ended ops a : stage a = Ended -> stage (run_ops ops a) = Ended.
Proof.
  revert a. induction ops as [|op rest IH]; intros a Ha; cbn; auto.
  apply IH, (apply_op_stage op a), Ha.
Qed.

(** *** The adapter invariant

    Seven columns; a waiting game has fewer than two players and an
    empty board; a started game has its two players. *)
Definition valid (a : Connect4Adapter) : Prop :=
  length a.(game).(board) = COL_SIZE /\
  ((a.(stage) = Waiting /\ (length a.(players) < NUM_PLAYERS)%nat /\
    Forall (fun col => col = []) a.(game).(board)) \/
   (a.(stage) <> Waiting /\ length a.(players) = NUM_PLAYERS)).

Lemma new_valid g : valid (new g).
Proof.
  split; [done|]. left. cbn. split; [done|]. split; [unfold NUM_PLAYERS; lia|].
  repeat constructor.
Qed.

Lemma started_valid a :
  length a.(game).(board) = COL_SIZE -> a.(stage) <> Waiting ->
  length a.(players) = NUM_PLAYERS -> valid a.
Proof. intros. split; [done|]. by right. Qed.

Lemma user_ok a :
  length a.(players) = NUM_PLAYERS -> exists p, get_user_from_token a = Ok p.
Proof.
  intros Hp. unfold get_user_from_token.
  destruct (players a) as [|p0 [|p1 [|]]]; cbn in Hp; try discriminate.
  by destruct (turn (game a)); eexists.
Qed.

Lemma add_player_valid u a :
  valid a -> a.(stage) = Waiting ->
  (add_player u a).1 = Ok tt /\ valid (add_player u a).2.
Proof.
  intros [Hb [[Hs [Hp Hc]]|[Hs Hp]]] Hw; [|congruence].
  unfold add_player. rewrite Hs.
  destruct (Nat.ltb_spec (length (players a)) NUM_PLAYERS); [|lia]. cbn.
  split; [done|]. split; [done|]. cbn. rewrite length_app. cbn.
  destruct (Nat.eqb_spec (length (players a) + 1) NUM_PLAYERS).
  - right. split; [done|lia].
  - left. split; [done|]. split; [unfold NUM_PLAYERS in *; lia|done].
Qed.

Lemma parse_request_payload_usize v n :
  parse_request_payload v = Some n -> 0 <= n < usize_modulus.
Proof.
  unfold parse_request_payload, as_usize.
  repeat case_match; intros; simplify_eq; try lia;
    repeat match goal with
    | H : (_ && _) = true |- _ => apply andb_true_iff in H as [? ?]
    | H : (_ <=? _) = true |- _ => apply Z.leb_le in H
    | H : (_ <? _) = true |- _ => apply Z.ltb_lt in H
    end; lia.
Qed.

Lemma moves_ok column c :
  0 <= column -> length c.(board) = COL_SIZE ->
  is_panic (moves column c).1 = false /\
  length (moves column c).2.(board) = COL_SIZE /\
  ((moves column c).1 = Ok tt ->
   column < Z.of_nat COL_SIZE /\ is_Some ((moves column c).2.(board) !! Z.to_nat column)).
Proof.
  intros Hn Hb. unfold moves.
  destruct (completed c); [split; [done|]; split; [done|]; discriminate|].
  unfold insert_move_if_legal.
  destruct (Z.leb_spec (Z.of_nat COL_SIZE) column);
    [split; [done|]; split; [done|]; discriminate|].
  destruct (board c !! Z.to_nat column) as [col|] eqn:Hcol.
  2:{ apply lookup_ge_None_1 in Hcol. unfold COL_SIZE in *. lia. }
  destruct (Nat.leb _ _); [split; [done|]; split; [done|]; discriminate|].
  cbn. rewrite length_insert. split; [done|]. split; [done|].
  intros _. split; [lia|]. apply lookup_lt_is_Some_2.
  rewrite length_insert, Hb. unfold COL_SIZE in *. lia.
Qed.

Lemma winning_move_ok c column :
  column < Z.of_nat COL_SIZE -> is_Some (c.(board) !! Z.to_nat column) ->
  exists w, winning_move c column = Ok w.
Proof.
  intros Hc [col Hcol]. unfold winning_move.
  destruct (Z.leb_spec (Z.of_nat COL_SIZE) column); [lia|].
  rewrite Hcol. by eexists.
Qed.

Lemma finish_move_valid a w d :
  length a.(game).(board) = COL_SIZE -> a.(stage) <> Waiting ->
  length a.(players) = NUM_PLAYERS ->
  is_panic (finish_move a w d).1 = false /\ valid (finish_move a w d).2.
Proof.
  intros Hb Hs Hp. destruct (user_ok a Hp) as [u Hu].
  unfold finish_move. rewrite Hu.
  assert (Hw : exists wl, (if w then Ok (winner a ++ [u]) else Ok (winner a)) = Ok wl)
    by (destruct w; eexists; reflexivity).
  destruct Hw as [wl ->]. split; [done|].
  apply started_valid; cbn; [|by destruct (w || d)|done].
  destruct (w || d); cbn; done.
Qed.

Lemma play_move_valid mv a :
  valid a -> is_panic (play_move mv a).1 = false /\ valid (play_move mv a).2.
Proof.
  intros Hv. pose proof Hv as [Hb Hst]. unfold play_move.
  destruct (stage a) eqn:Hs; cbn; [by split| |by split].
  assert (Hp : length (players a) = NUM_PLAYERS)
    by (destruct Hst as [[? _]|[_ ?]]; congruence).
  destruct (parse_request_payload _) as [column|] eqn:Hpay; [|by split].
  apply parse_request_payload_usize in Hpay.
  destruct (user_ok a Hp) as [p Hu]. rewrite Hu.
  destruct (negb _); [by split|].
  destruct (moves_ok column (game a)) as (Hnp & Hlen & Hok); [lia|done|].
  destruct (moves column (game a)) as [r c] eqn:Hm; cbn in *.
  assert (Hvc : valid (with_game a c))
    by (apply started_valid; cbn; [done|by rewrite Hs|done]).
  destruct r as [[]|e|m|]; cbn; try by split.
  destruct (Hok eq_refl) as [Hcol Hsome].
  destruct (winning_move_ok c column Hcol Hsome) as [w ->].
  apply finish_move_valid; cbn; [done|by rewrite Hs|done].
Qed.

(** Every token is shown as a player when the invariant holds. *)
Lemma encode_board_ok a :
  valid a -> exists cells, encode_board a a.(game).(board) = Ok cells.
Proof.
  intros [_ [[_ [_ Hc]]|[_ Hp]]].
  - induction Hc as [|col b Hcol _ [cells IH]]; [by eexists|].
    subst col. cbn. rewrite IH. by eexists.
  - assert (Ht : forall t, exists p, encode_token a t = Ok p).
    { intros t. unfold encode_token.
      destruct (players a) as [|p0 [|p1 [|]]]; cbn in Hp; try discriminate.
      by destruct t; eexists. }
    induction (board (game a)) as [|col b [cells IH]]; [by eexists|].
    cbn. rewrite IH.
    assert (Hcol : exists vs, encode_column a col = Ok vs).
    { induction col as [|t col [vs IHc]]; [by eexists|].
      cbn. destruct (Ht t) as [p ->]. rewrite IHc. by eexists. }
    destruct Hcol as [vs ->]. by eexists.
Qed.

Lemma get_encoded_state_ok a :
  valid a -> exists st entries,
    get_encoded_state a = Ok st /\ st.(payload) = VObject entries.
Proof.
  intros Hv. destruct (encode_board_ok a Hv) as [cells Hcells].
  unfold get_encoded_state. rewrite Hcells.
  destruct (stage_eqb (stage a) InProgress) eqn:Hs.
  - assert (Hp : length (players a) = NUM_PLAYERS).
    { destruct Hv as [_ [[Hw _]|[_ ?]]]; [|done]. by rewrite Hw in Hs. }
    destruct (user_ok a Hp) as [u ->]. by do 2 eexists.
  - by do 2 eexists.
Qed.

(** C7. Stage monotonicity: a new game is [Waiting]; along every sequence
    of [add_player] and [play_move] calls, from any adapter state, the
    stage [get_stage] reports never goes back in the order
    [Waiting < InProgress < Ended]; and once it is [Ended], no later
    [add_player] or [play_move] returns [Ok]. *)
Theorem stage_monotone :
  (forall g, get_stage (new g) = Waiting) /\
  (forall ops1 ops2 a,
     (stage_index (get_stage (run_ops ops1 a))
      <= stage_index (get_stage (run_ops (ops1 ++ ops2) a)))%nat) /\
  (forall ops1 a, get_stage (run_ops ops1 a) = Ended ->
     forall ops2 op, (apply_op op (run_ops (ops1 ++ ops2) a)).1 <> Ok tt).
Proof.
  split; [done|]. split.
  - intros ops1 ops2 a. unfold get_stage. rewrite run_ops_app. apply run_ops_mono.
  - intros ops1 a Hend ops2 op. unfold get_stage in Hend.
    rewrite run_ops_app. apply (apply_op_stage op), run_ops_ended, Hend.
Qed.

(** Alice and Bob join; Alice fills column 0 while Bob plays column 1. *)
Definition demo_ops : list AdapterOp :=
  OpAddPlayer "alice" :: OpAddPlayer "bob" ::
  map (fun '(p, c) => OpPlayMove {| player := p; move_payload := VObject [("column", VNumber c)] |})
    [("alice", 0); ("bob", 1); ("alice", 0); ("bob", 1); ("alice", 0); ("bob", 1);
     ("alice", 0)]%string.

Lemma stage_monotone_witness :
  get_stage (run_ops demo_ops (new [1; 2; 3; 4])) = Ended /\
  (apply_op (OpPlayMove {| player := "bob"; move_payload := VObject [("column", VNumber 2)] |})
     (run_ops (demo_ops ++ []) (new [1; 2; 3; 4]))).1 <> Ok tt.
Proof.
  split; [vm_compute; reflexivity|].
  apply (proj2 (proj2 stage_monotone)). vm_compute. reflexivity.
Defined.

End Connect4.

(* ------------------------------------------------------------------ *)
(** ** mod.rs: the game registry [GameManager]

    The [DashMap<GameId, Mutex<Game>>] is a [gmap]. A [Mutex] records
    whether a request in flight holds it and whether a panic poisoned
    it. Each request runs as one step; it reads the wall clock once
    ([now], in seconds) and takes its random ids from a list of draws.
    Locking a held mutex blocks, which the step reports as [Pending];
    [lock().unwrap()] on a poisoned mutex panics, and a panic while the
    guard is held poisons the mutex. *)

Module Registry.
Import Adapter.

Definition MAX_USERNAME_LENGTH : nat := 12.

(** [Duration::minutes(5)] in seconds *)
Definition GC_TTL : Z := 300.

Definition poison_msg : string :=
  "called `Result::unwrap()` on an `Err` value: PoisonError".
Definition unwrap_err_msg : string := "called `Result::unwrap()` on an `Err` value".
Definition payload_panic_msg : string := "State payload must be a Serde object".

(** [serde_json::to_value(game_type)] *)
Definition game_type_value (t : GameType) : Value :=
  match t with Connect4 => VString "connect_4" end.

Definition result_map {B C} (f : B -> C) (r : Result B) : Result C :=
  match r with
  | Ok b => Ok (f b)
  | Err e => Err e
  | Panic m => Panic m
  | Pending => Pending
  end.

Record Session := { username : string }.

Section Manager.
Context {A : Type} `{GameAdapter A}.

Record Game := {
  adapter : A;
  sessions : gmap SessionId Session;
  last_update : Z
}.

Record Mutex := {
  held : bool;
  poisoned : bool;
  data : Game
}.

(** [GameManager { games }] *)
Local Abbreviation GameManager := (gmap GameId Mutex).

Definition set_adapter (game : Game) (a : A) : Game :=
  {| adapter := a; sessions := game.(sessions); last_update := game.(last_update) |}.

(** [self.games.get(&game_id).ok_or_else(..)?] then [mutex.lock().unwrap()],
    the body [f] under the guard, and the guard's release. *)
Definition with_lock {B} (g : GameId) (f : Game -> Result B * Game) (mgr : GameManager)
  : Result B * GameManager :=
  match mgr !! g with
  | None => (Err (ManagerError (GameNotFound g)), mgr)
  | Some m =>
      if m.(held) then (Pending, mgr)
      else if m.(poisoned) then (Panic poison_msg, mgr)
      else
        let '(r, d) := f m.(data) in
        (r, <[g := {| held := false; poisoned := is_panic r; data := d |}]> mgr)
  end.

(** The closure of [gc_games]. [DashMap::retain] write-locks the shard and
    hands the closure [&mut Mutex<Game>]: no guard on the mutex can exist
    then, so [try_lock] never fails with [WouldBlock]. It fails only on a
    poisoned mutex, and the game is then kept. *)
Definition retain (now : Z) (m : Mutex) : bool :=
  if m.(poisoned) then true
  else now <=? m.(data).(last_update) + GC_TTL.

(** [gc_games]: [self.games.retain(..)], once it has the shards. *)
Definition gc_games (now : Z) (mgr : GameManager) : GameManager :=
  filter (fun kv => retain now kv.2 = true) mgr.

(** A request holds the [Ref] of [self.games.get(&game_id)], a read guard
    on the game's shard, for as long as it holds the game's mutex (and
    [list_games] holds the shard guards of [self.games.iter()] while it
    locks). [retain] needs the write lock of every shard, so the sweep
    cannot finish while any mutex is held: the step is [Pending]. *)
Definition sweep_blocked (mgr : GameManager) : bool :=
  existsb (fun kv => kv.2.(held)) (map_to_list mgr).

Definition new_game (g : GameId) (now : Z) : Mutex :=
  {| held := false; poisoned := false;
     data := {| adapter := new g; sessions := ∅; last_update := now |} |}.

(** The [loop] of [create_game]: draw ids until one is vacant. *)
Fixpoint insert_fresh_game (now : Z) (draws : list GameId) (mgr : GameManager)
  : Result GameId * GameManager :=
  match draws with
  | [] => (Pending, mgr)
  | g :: rest =>
      match mgr !! g with
      | None => (Ok g, <[g := new_game g now]> mgr)
      | Some _ => insert_fresh_game now rest mgr
      end
  end.

(** [create_game] *)
Definition create_game (now : Z) (draws : list GameId) (mgr : GameManager)
  : Result GameId * GameManager :=
  if sweep_blocked mgr then (Pending, mgr)
  else insert_fresh_game now draws (gc_games now mgr).

(** The [loop] at the end of [receive_join]. *)
Fixpoint insert_fresh_session (s : Session) (draws : list SessionId) (game : Game)
  : Result SessionId * Game :=
  match draws with
  | [] => (Pending, game)
  | sid :: rest =>
      match game.(sessions) !! sid with
      | None =>
          (Ok sid, {| adapter := game.(adapter); sessions := <[sid := s]> game.(sessions);
                      last_update := game.(last_update) |})
      | Some _ => insert_fresh_session s rest game
      end
  end.

(** The body of [receive_join] under the guard; [username.len()] is the
    byte length. *)
Definition join_locked (g : GameId) (username : string) (now : Z)
    (draws : list SessionId) (game : Game) : Result SessionId * Game :=
  let a := game.(adapter) in
  if negb (stage_eqb (get_stage a) Waiting) then
    (adapter_err g (InvalidGameStage (get_stage a)), game)
  else if String.eqb username "" then
    (Err (ManagerError (InvalidUsername username TooShort)), game)
  else if Nat.ltb MAX_USERNAME_LENGTH (String.length username) then
    (Err (ManagerError (InvalidUsername username TooLong)), game)
  else if has_player a username then
    (Err (ManagerError (InvalidUsername username (AlreadyInGame g))), game)
  else
    match add_player username a with
    | (Ok _, a') =>
        insert_fresh_session {| username := username |} draws
          {| adapter := a'; sessions := game.(sessions); last_update := now |}
    | (Err e, a') => (Err e, set_adapter game a')
    | (Panic m, a') => (Panic m, set_adapter game a')
    | (Pending, a') => (Pending, set_adapter game a')
    end.

Definition receive_join (now : Z) (draws : list SessionId) (g : GameId)
    (username : string) (mgr : GameManager) : Result SessionId * GameManager :=
  with_lock g (join_locked g username now draws) mgr.

(** The body of [receive_move] under the guard. *)
Definition move_locked (sid : SessionId) (mv : Value) (now : Z) (game : Game)
  : Result unit * Game :=
  match game.(sessions) !! sid with
  | None => (Err (ManagerError (SessionNotFound sid)), game)
  | Some s =>
      match play_move {| player := s.(username); move_payload := mv |} game.(adapter) with
      | (Ok _, a') =>
          (Ok tt, {| adapter := a'; sessions := game.(sessions); last_update := now |})
      | (r, a') => (r, set_adapter game a')
      end
  end.

Definition receive_move (now : Z) (g : GameId) (sid : SessionId) (mv : Value)
    (mgr : GameManager) : Result unit * GameManager :=
  with_lock g (move_locked sid mv now) mgr.

Definition set_payload (st : GenericGameState) (p : Value) : GenericGameState :=
  {| gs_players := st.(gs_players); can_move := st.(can_move); winners := st.(winners);
     gs_stage := st.(gs_stage); payload := p |}.

(** The body of [get_state] under the guard. *)
Definition state_locked (game : Game) : Result GenericGameState * Game :=
  let a := game.(adapter) in
  match get_encoded_state a with
  | Ok st =>
      match st.(payload) with
      | VObject m =>
          (Ok (set_payload st
                 (VObject (object_insert "game_type" (game_type_value (get_type a)) m))),
           game)
      | _ => (Panic payload_panic_msg, game)
      end
  | Err e => (Err e, game)
  | Panic m => (Panic m, game)
  | Pending => (Pending, game)
  end.

Definition get_state (g : GameId) (mgr : GameManager)
  : Result GenericGameState * GameManager :=
  with_lock g state_locked mgr.

Definition subscribe (g : GameId) (mgr : GameManager)
  : Result Notify.Subscription * GameManager :=
  with_lock g (fun game => (Ok (Notify.subscribe (get_notifier game.(adapter))), game)) mgr.

(** The closure of [list_games] for one entry. *)
Definition summarize (g : GameId) (m : Mutex) : Result Search.GameSummary :=
  if m.(held) then Pending
  else if m.(poisoned) then Panic poison_msg
  else
    let a := m.(data).(adapter) in
    match get_encoded_state a with
    | Ok st =>
        Ok {| Search.game_id := g; Search.game_type := get_type a;
              Search.players := st.(gs_players); Search.stage := st.(gs_stage);
              Search.last_updated := m.(data).(last_update) |}
    | Err _ => Panic unwrap_err_msg
    | Panic msg => Panic msg
    | Pending => Pending
    end.

(** The iteration consumed by [sorted_by]; a panic under a guard names
    the game whose mutex it poisons. *)
Fixpoint collect (es : list (GameId * Mutex))
  : Result (list Search.GameSummary) * option GameId :=
  match es with
  | [] => (Ok [], None)
  | (g, m) :: rest =>
      match summarize g m with
      | Ok s => let '(r, p) := collect rest in (result_map (cons s) r, p)
      | Err e => (Err e, None)
      | Panic msg => (Panic msg, if m.(held) || m.(poisoned) then None else Some g)
      | Pending => (Pending, None)
      end
  end.

Definition poison (g : GameId) (mgr : GameManager) : GameManager :=
  match mgr !! g with
  | Some m => <[g := {| held := m.(held); poisoned := true; data := m.(data) |}]> mgr
  | None => mgr
  end.

(** [list_games]: [SearchEngine::apply] returns [InvalidPage] before it
    pulls from the lazy iterator; otherwise [sorted_by] consumes all of
    it. *)
Definition list_games (options : Search.SearchOptions) (mgr : GameManager)
  : Result (list Search.GameSummary) * GameManager :=
  if options.(Search.page) =? 0 then (Err (ManagerError InvalidPage), mgr)
  else
    match collect (map_to_list mgr) with
    | (Ok sums, _) => (Search.apply sums options, mgr)
    | (r, p) => (r, match p with Some g => poison g mgr | None => mgr end)
    end.

(** The requests the API routes forward to the registry. *)
Inductive Request :=
| CreateGame (now : Z) (draws : list GameId)
| ReceiveJoin (now : Z) (draws : list SessionId) (g : GameId) (username : string)
| ReceiveMove (now : Z) (g : GameId) (sid : SessionId) (mv : Value)
| GetState (g : GameId)
| ListGames (options : Search.SearchOptions)
| Subscribe (g : GameId).

Inductive Response :=
| RGameId (g : GameId)
| RSessionId (s : SessionId)
| RUnit
| RState (st : GenericGameState)
| RSummaries (l : list Search.GameSummary)
| RSubscription (s : Notify.Subscription).

Definition serve (req : Request) (mgr : GameManager) : Result Response * GameManager :=
  match req with
  | CreateGame now draws =>
      let '(r, m) := create_game now draws mgr in (result_map RGameId r, m)
  | ReceiveJoin now draws g u =>
      let '(r, m) := receive_join now draws g u mgr in (result_map RSessionId r, m)
  | ReceiveMove now g sid mv =>
      let '(r, m) := receive_move now g sid mv mgr in (result_map (fun _ => RUnit) r, m)
  | GetState g => let '(r, m) := get_state g mgr in (result_map RState r, m)
  | ListGames o => let '(r, m) := list_games o mgr in (result_map RSummaries r, m)
  | Subscribe g => let '(r, m) := subscribe g mgr in (result_map RSubscription r, m)
  end.

Fixpoint run (reqs : list Request) (mgr : GameManager)
  : list (Result Response) * GameManager :=
  match reqs with
  | [] => ([], mgr)
  | q :: rest =>
      let '(r, m1) := serve q mgr in
      let '(rs, m2) := run rest m1 in
      (r :: rs, m2)
  end.

(** [list_games] in a debug build: [SearchEngine::apply] panics on the
    overflowing skip after the page check and before it pulls from the
    lazy iterator, so no game is locked then. *)
Definition list_games_debug (options : Search.SearchOptions) (mgr : GameManager)
  : Result (list Search.GameSummary) * GameManager :=
  if options.(Search.page) =? 0 then (Err (ManagerError InvalidPage), mgr)
  else if usize_modulus <=? (options.(Search.page) - 1) * Search.LIST_GAME_SUMMARY_COUNT
  then (Panic Search.overflow_msg, mgr)
  else
    match collect (map_to_list mgr) with
    | (Ok sums, _) => (Search.apply_debug sums options, mgr)
    | (r, p) => (r, match p with Some g => poison g mgr | None => mgr end)
    end.

(** [serve] in a debug build. The multiplication of [SearchEngine::apply]
    is the only arithmetic on the request paths that can overflow; every
    other request is served as in [serve]. *)
Definition serve_debug (req : Request) (mgr : GameManager) : Result Response * GameManager :=
  match req with
  | ListGames o => let '(r, m) := list_games_debug o mgr in (result_map RSummaries r, m)
  | _ => serve req mgr
  end.


End Manager.

(** *** A Connect 4 registry to run the statements on *)

Abbreviation C4Manager := (gmap GameId (@Mutex Connect4.Connect4Adapter)) (only parsing).

Definition demo_game : GameId := [1; 2; 3; 4].
Definition demo_session1 : SessionId := repeat 1 16.
Definition demo_session2 : SessionId := repeat 2 16.

(** A game created at time 0 that ["alice"] joined at time 1. *)
Definition demo_waiting : C4Manager :=
  (run [CreateGame 0 [demo_game]; ReceiveJoin 1 [demo_session1] demo_game "alice"] ∅).2.

(** *** Error atomicity of [receive_join] and [receive_move] *)

Section Atomicity.
Context {A : Type} `{GameAdapter A}.

(** The part of every game that the registry owns: its sessions and its
    [last_update]. *)
Definition registry_owned (mgr : gmap GameId (@Mutex A))
  : gmap GameId (gmap SessionId Session * Z) :=
  (fun m => (m.(data).(sessions), m.(data).(last_update))) <$> mgr.

Lemma insert_fresh_session_not_err s draws (game : @Game A) e d :
  insert_fresh_session s draws game <> (Err e, d).
Proof.
  revert game. induction draws as [|sid rest IH]; intros game; cbn; [done|].
  case_match; [apply IH | done].
Qed.

Lemma join_locked_err g u now draws (game : @Game A) e d :
  join_locked g u now draws game = (Err e, d) ->
  d.(sessions) = game.(sessions) /\ d.(last_update) = game.(last_update).
Proof.
  unfold join_locked, adapter_err.
  repeat case_match; intros Heq; simplify_eq/=; auto.
  by apply insert_fresh_session_not_err in Heq.
Qed.

Lemma move_locked_err sid mv now (game : @Game A) e d :
  move_locked sid mv now game = (Err e, d) ->
  d.(sessions) = game.(sessions) /\ d.(last_update) = game.(last_update).
Proof.
  unfold move_locked. repeat case_match; intros Heq; simplify_eq/=; auto.
Qed.

Lemma with_lock_err {B} g (f : @Game A -> Result B * @Game A) mgr e :
  (forall game e d, f game = (Err e, d) ->
     d.(sessions) = game.(sessions) /\ d.(last_update) = game.(last_update)) ->
  (with_lock g f mgr).1 = Err e ->
  registry_owned (with_lock g f mgr).2 = registry_owned mgr.
Proof.
  intros Hf. unfold with_lock.
  destruct (mgr !! g) as [m|] eqn:Hg; cbn; [|done].
  destruct (held m), (poisoned m); cbn; try done.
  destruct (f (data m)) as [r d] eqn:Hd; cbn. intros ->.
  destruct (Hf _ _ _ Hd) as [Hs Hl].
  apply map_eq. intros k. unfold registry_owned. rewrite !lookup_fmap.
  destruct (decide (k = g)) as [->|Hne].
  - rewrite lookup_insert_eq, Hg. cbn. by rewrite Hs, Hl.
  - by rewrite lookup_insert_ne by congruence.
Qed.

(** C10. Error atomicity: whenever [receive_join] or [receive_move]
    returns an error, for any adapter and for any reason (including an
    error of the adapter's [add_player] or [play_move]), the sessions and
    the [last_update] of every game, the addressed one included, are
    those before the call: no session is added and no timestamp moves. *)
Theorem error_atomicity :
  (forall now draws g u (mgr : gmap GameId (@Mutex A)) e,
     (receive_join now draws g u mgr).1 = Err e ->
     registry_owned (receive_join now draws g u mgr).2 = registry_owned mgr) /\
  (forall now g sid mv (mgr : gmap GameId (@Mutex A)) e,
     (receive_move now g sid mv mgr).1 = Err e ->
     registry_owned (receive_move now g sid mv mgr).2 = registry_owned mgr).
Proof.
  split; intros * Herr; eapply with_lock_err; try exact Herr.
  - intros game e' d. apply join_locked_err.
  - intros game e' d. apply move_locked_err.
Qed.

End Atomicity.

(** *** No panic on the request paths of a Connect 4 registry *)

Definition valid_mutex (m : @Mutex Connect4.Connect4Adapter) : Prop :=
  m.(held) = false /\ m.(poisoned) = false /\ Connect4.valid m.(data).(adapter).

Definition valid_registry (mgr : C4Manager) : Prop :=
  map_Forall (fun _ m => valid_mutex m) mgr.

Lemma valid_registry_empty : valid_registry ∅.
Proof. apply map_Forall_empty. Qed.

Lemma is_panic_result_map {B C} (f : B -> C) r : is_panic (result_map f r) = is_panic r.
Proof. by destruct r. Qed.

Lemma with_lock_safe {B} g (f : @Game Connect4.Connect4Adapter -> Result B * Game) mgr :
  valid_registry mgr ->
  (forall game, Connect4.valid game.(adapter) ->
     is_panic (f game).1 = false /\ Connect4.valid (f game).2.(adapter)) ->
  is_panic (with_lock g f mgr).1 = false /\ valid_registry (with_lock g f mgr).2.
Proof.
  intros Hv Hf. unfold with_lock.
  destruct (mgr !! g) as [m|] eqn:Hg; [|by split].
  destruct (map_Forall_lookup_1 _ _ _ _ Hv Hg) as (Hh & Hp & Ha).
  rewrite Hh, Hp.
  destruct (f (data m)) as [r d] eqn:Hd.
  destruct (Hf (data m) Ha) as [Hr Hva]. rewrite Hd in Hr, Hva. cbn in *.
  split; [done|]. apply map_Forall_insert_2; [|done].
  split; [done|]. split; [done|]. done.
Qed.

Lemma gc_games_valid now mgr : valid_registry mgr -> valid_registry (gc_games now mgr).
Proof.
  intros Hv k m Hk. apply map_lookup_filter_Some in Hk as [Hk _]. by apply (Hv k).
Qed.

Lemma insert_fresh_game_safe now draws mgr :
  valid_registry mgr ->
  is_panic (insert_fresh_game (A:=Connect4.Connect4Adapter) now draws mgr).1 = false /\
  valid_registry (insert_fresh_game now draws mgr).2.
Proof.
  revert mgr. induction draws as [|g rest IH]; intros mgr Hv; cbn; [by split|].
  destruct (mgr !! g); [by apply IH|].
  split; [done|]. apply map_Forall_insert_2; [|done].
  split; [done|]. split; [done|]. apply Connect4.new_valid.
Qed.

Lemma insert_fresh_session_safe s draws (game : @Game Connect4.Connect4Adapter) :
  is_panic (insert_fresh_session s draws game).1 = false /\
  (insert_fresh_session s draws game).2.(adapter) = game.(adapter).
Proof.
  revert game. induction draws as [|sid rest IH]; intros game; cbn; [by split|].
  destruct (sessions game !! sid); [apply IH|by split].
Qed.

Lemma join_locked_safe g u now draws (game : @Game Connect4.Connect4Adapter) :
  Connect4.valid game.(adapter) ->
  is_panic (join_locked g u now draws game).1 = false /\
  Connect4.valid (join_locked g u now draws game).2.(adapter).
Proof.
  intros Hv. unfold join_locked.
  destruct (negb _) eqn:Hs; [by split|].
  destruct (String.eqb _ _); [by split|].
  destruct (Nat.ltb _ _); [by split|].
  destruct (has_player _ _); [by split|].
  assert (Hw : Connect4.stage (adapter game) = Waiting).
  { change (get_stage (adapter game)) with (Connect4.stage (adapter game)) in Hs.
    by destruct (Connect4.stage (adapter game)). }
  destruct (Connect4.add_player_valid u (adapter game) Hv Hw) as [Hok Hva].
  change (add_player u (adapter game)) with (Connect4.add_player u (adapter game)).
  destruct (Connect4.add_player u (adapter game)) as [r a'] eqn:Ha.
  cbn in Hok, Hva. subst r.
  destruct (insert_fresh_session_safe {| username := u |} draws
              {| adapter := a'; sessions := sessions game; last_update := now |})
    as [Hp Hadp].
  split; [done|]. by rewrite Hadp.
Qed.

Lemma move_locked_safe sid mv now (game : @Game Connect4.Connect4Adapter) :
  Connect4.valid game.(adapter) ->
  is_panic (move_locked sid mv now game).1 = false /\
  Connect4.valid (move_locked sid mv now game).2.(adapter).
Proof.
  intros Hv. unfold move_locked.
  destruct (sessions game !! sid) as [s|]; [|by split].
  destruct (Connect4.play_move_valid {| player := username s; move_payload := mv |}
              (adapter game) Hv) as [Hp Hva].
  change (play_move {| player := username s; move_payload := mv |} (adapter game))
    with (Connect4.play_move {| player := username s; move_payload := mv |} (adapter game)).
  destruct (Connect4.play_move _ (adapter game)) as [r a'] eqn:Ha.
  cbn in Hp, Hva. by destruct r.
Qed.

Lemma state_locked_safe (game : @Game Connect4.Connect4Adapter) :
  Connect4.valid game.(adapter) ->
  is_panic (state_locked game).1 = false /\ Connect4.valid (state_locked game).2.(adapter).
Proof.
  intros Hv. destruct (Connect4.get_encoded_state_ok _ Hv) as (st & es & Hst & Hpl).
  unfold state_locked.
  change (get_encoded_state (adapter game)) with (Connect4.get_encoded_state (adapter game)).
  rewrite Hst, Hpl. by split.
Qed.

Lemma collect_safe (es : list (GameId * @Mutex Connect4.Connect4Adapter)) :
  Forall (fun e => valid_mutex e.2) es -> exists l, collect es = (Ok l, None).
Proof.
  induction 1 as [|[g m] rest (Hh & Hp & Ha) _ [l IH]]; [by eexists|].
  cbn in *. unfold summarize. rewrite Hh, Hp.
  destruct (Connect4.get_encoded_state_ok _ Ha) as (st & es & Hst & _).
  change (get_encoded_state (adapter (data m)))
    with (Connect4.get_encoded_state (adapter (data m))).
  rewrite Hst, IH. by eexists.
Qed.

Lemma apply_not_panic sums opts : is_panic (Search.apply sums opts) = false.
Proof. unfold Search.apply. by destruct (_ =? 0). Qed.

Lemma list_games_debug_release (opts : Search.SearchOptions) (mgr : C4Manager) :
  1 <= opts.(Search.page) ->
  (opts.(Search.page) - 1) * Search.LIST_GAME_SUMMARY_COUNT < usize_modulus ->
  list_games_debug opts mgr = list_games opts mgr.
Proof.
  intros H1 H2. unfold list_games_debug, list_games.
  destruct (_ =? 0); [done|].
  rewrite (proj2 (Z.leb_gt _ _) H2).
  destruct (collect _) as [[l| | |] p]; try done.
  by rewrite Search.apply_debug_release.
Qed.

Lemma list_games_debug_overflow (opts : Search.SearchOptions) (mgr : C4Manager) :
  usize_modulus <= (opts.(Search.page) - 1) * Search.LIST_GAME_SUMMARY_COUNT ->
  list_games_debug opts mgr = (Panic Search.overflow_msg, mgr).
Proof.
  intros H. unfold list_games_debug.
  destruct (Z.eqb_spec opts.(Search.page) 0) as [Hp|_].
  - exfalso. rewrite Hp in H. unfold usize_modulus, Search.LIST_GAME_SUMMARY_COUNT in H. lia.
  - by rewrite (proj2 (Z.leb_le _ _) H).
Qed.

Lemma list_games_safe (opts : Search.SearchOptions) (mgr : C4Manager) :
  valid_registry mgr ->
  is_panic (list_games opts mgr).1 = false /\ valid_registry (list_games opts mgr).2.
Proof.
  intros Hv. unfold list_games.
  destruct (_ =? 0); [by split|].
  destruct (collect_safe (map_to_list mgr)) as [l ->].
  { apply map_Forall_to_list in Hv. eapply Forall_impl; [exact Hv|]. by intros []. }
  split; [apply apply_not_panic|done].
Qed.

Lemma serve_safe (req : Request) (mgr : C4Manager) :
  valid_registry mgr ->
  is_panic (serve req mgr).1 = false /\ valid_registry (serve req mgr).2.
Proof.
  intros Hv. destruct req as [now draws|now draws g u|now g sid mv|g|opts|g]; cbn.
  - unfold create_game. destruct (sweep_blocked mgr); [by split|].
    destruct (insert_fresh_game_safe now draws (gc_games now mgr)) as [Hp Hv'];
      [by apply gc_games_valid|].
    destruct (insert_fresh_game _ _ _). cbn in *. by rewrite is_panic_result_map.
  - destruct (with_lock_safe g (join_locked g u now draws) mgr Hv) as [Hp Hv'];
      [apply join_locked_safe|].
    unfold receive_join. destruct (with_lock _ _ _). cbn in *. by rewrite is_panic_result_map.
  - destruct (with_lock_safe g (move_locked sid mv now) mgr Hv) as [Hp Hv'];
      [apply move_locked_safe|].
    unfold receive_move. destruct (with_lock _ _ _). cbn in *. by rewrite is_panic_result_map.
  - destruct (with_lock_safe g state_locked mgr Hv) as [Hp Hv'];
      [apply state_locked_safe|].
    unfold get_state. destruct (with_lock _ _ _). cbn in *. by rewrite is_panic_result_map.
  - destruct (list_games_safe opts mgr Hv) as [Hp Hv'].
    destruct (list_games _ _). cbn in *. by rewrite is_panic_result_map.
  - destruct (with_lock_safe g
      (fun game => (Ok (Notify.subscribe (get_notifier game.(adapter))), game)) mgr Hv)
      as [Hp Hv']; [by intros; split|].
    unfold subscribe. destruct (with_lock _ _ _). cbn in *. by rewrite is_panic_result_map.
Qed.

Lemma run_safe (reqs : list Request) (mgr : C4Manager) :
  valid_registry mgr -> Forall (fun r => is_panic r = false) (run reqs mgr).1.
Proof.
  revert mgr. induction reqs as [|q rest IH]; intros mgr Hv; cbn; [done|].
  destruct (serve_safe q mgr Hv) as [Hp Hv'].
  destruct (serve q mgr) as [r m1]. specialize (IH m1 Hv').
  destruct (run rest m1). cbn in *. by constructor.
Qed.

(** C9. No panic on any request path holds in a release build only.
    In the release profile, from the empty registry, every sequence of
    [create_game], [receive_join], [receive_move], [get_state],
    [list_games] and [subscribe] requests on Connect 4 games (any clock
    readings, random draws, usernames, moves and options) gets only [Ok],
    [Err] or a still-drawing [Pending] result: neither the payload panic
    of [get_state], nor the assertions of [add_player], nor an [unwrap]
    is reached, and the skip [(page - 1) * 20] of [SearchEngine::apply]
    wraps. In a debug build that multiplication is checked: [list_games]
    with page [2^62 + 1] panics with "attempt to multiply with overflow",
    where the release build answers with an empty page. *)
Theorem no_panic_release_only :
  (forall reqs : list Request,
     Forall (fun r => is_panic r = false) (run (A:=Connect4.Connect4Adapter) reqs ∅).1) /\
  (serve (A:=Connect4.Connect4Adapter) (ListGames Search.huge_page_options) ∅).1
    = Ok (RSummaries []) /\
  (serve_debug (A:=Connect4.Connect4Adapter) (ListGames Search.huge_page_options) ∅).1
    = Panic Search.overflow_msg.
Proof.
  split; [intros reqs; apply run_safe, valid_registry_empty|].
  split; vm_compute; reflexivity.
Qed.

(** *** The outcomes of [receive_join] on a Connect 4 registry *)

Lemma with_lock_some {B} (g : GameId) (f : @Game Connect4.Connect4Adapter -> Result B * Game)
    (mgr : C4Manager) m :
  mgr !! g = Some m -> m.(held) = false -> m.(poisoned) = false ->
  with_lock g f mgr =
    ((f m.(data)).1,
     <[g := {| held := false; poisoned := is_panic (f m.(data)).1; data := (f m.(data)).2 |}]> mgr).
Proof. intros Hg Hh Hp. unfold with_lock. rewrite Hg, Hh, Hp. by destruct (f (data m)). Qed.

Lemma has_player_In a u : Connect4.has_player a u = true <-> In u (Connect4.players a).
Proof.
  unfold Connect4.has_player. rewrite existsb_exists. split.
  - intros [x [Hin Heq]]. apply String.eqb_eq in Heq. by subst.
  - intros Hin. exists u. split; [done|]. apply String.eqb_refl.
Qed.

Lemma insert_fresh_session_spec (s : Session) draws (game : @Game Connect4.Connect4Adapter) :
  Exists (fun sid => game.(sessions) !! sid = None) draws ->
  exists sid,
    insert_fresh_session s draws game =
      (Ok sid, {| adapter := game.(adapter); sessions := <[sid := s]> game.(sessions);
                  last_update := game.(last_update) |}) /\
    In sid draws /\ game.(sessions) !! sid = None.
Proof.
  induction 1 as [sid rest Hs|sid rest _ IH].
  - exists sid. cbn. rewrite Hs. split; [done|]. split; [left|]; done.
  - cbn. destruct (sessions game !! sid) eqn:E.
    + destruct IH as (sid' & Heq & Hin & Hf). exists sid'.
      split; [done|]. split; [right|]; done.
    + exists sid. split; [done|]. split; [left|]; done.
Qed.

(** After [create], ["alice"] and ["bob"] joined: the game is [InProgress]. *)
Definition demo_full : C4Manager :=
  (run [CreateGame 0 [demo_game]; ReceiveJoin 1 [demo_session1] demo_game "alice";
        ReceiveJoin 2 [demo_session2] demo_game "bob"] ∅).2.

(** A fresh Connect 4 game, created at time 0. *)
Definition demo_created : C4Manager := (create_game 0 [demo_game] ∅).2.

(** The number of Unicode scalar values of a UTF-8 string: the bytes that are
    not continuation bytes [0b10xxxxxx]. *)
Definition utf8_char_count (s : string) : nat :=
  length (filter (fun c => negb (N.eqb (N.shiftr (N_of_ascii c) 6) 2)) (list_ascii_of_string s)).

(** ["é"] seven times, in UTF-8: 7 characters, 14 bytes. *)
Definition e_acute_username : string :=
  String.concat EmptyString (repeat (String (ascii_of_nat 195) (String (ascii_of_nat 169) EmptyString)) 7).

(** ** Claim C5 (code bug): [receive_join] measures the username with
    [String::len], which counts UTF-8 bytes, while [TooLong] reads "longer
    than 12 characters". On a waiting game where a 7-letter ASCII name
    joins, the name ["é"] written seven times (7 characters, 14 bytes) is
    refused with [TooLong]. *)
Theorem join_counts_bytes :
  utf8_char_count e_acute_username = 7%nat /\ String.length e_acute_username = 14%nat /\
  (MAX_USERNAME_LENGTH < String.length e_acute_username)%nat /\
  (receive_join 1 [demo_session1] demo_game "eeeeeee" demo_created).1 = Ok demo_session1 /\
  (receive_join 1 [demo_session1] demo_game e_acute_username demo_created).1 =
    Err (ManagerError (InvalidUsername e_acute_username TooLong)).
Proof. vm_compute. repeat split; auto. Qed.

Lemma run_valid (reqs : list Request) (mgr : C4Manager) :
  valid_registry mgr -> valid_registry (run reqs mgr).2.
Proof.
  revert mgr. induction reqs as [|q rest IH]; intros mgr Hv; cbn; [done|].
  destruct (serve_safe q mgr Hv) as [_ Hv'].
  destruct (serve q mgr) as [r mgr'] eqn:E. cbn in Hv'.
  specialize (IH mgr' Hv'). destruct (run rest mgr'). exact IH.
Qed.

(** On a registry reached by requests, [receive_join g u] fails with
    [GameNotFound g] when [g] is absent; otherwise the checks run in this
    order: [InvalidGameStage] when the stage is not [Waiting], [TooShort]
    for the empty name, [TooLong] when [String::len] (the number of bytes)
    of the name exceeds 12, [AlreadyInGame g] when the name is already a
    player; past them, when one of the drawn ids is not a session of the
    game, the join returns such an id [sid], binds it to [u] and adds [u]
    to the players. *)
Lemma join_checks_in_order (now : Z) (draws : list SessionId) (g : GameId) (u : string)
    (mgr : C4Manager) :
  valid_registry mgr ->
  (mgr !! g = None ->
     (receive_join now draws g u mgr).1 = Err (ManagerError (GameNotFound g))) /\
  (forall m, mgr !! g = Some m ->
     (Connect4.stage m.(data).(adapter) <> Waiting ->
        (receive_join now draws g u mgr).1 =
          Err (AdapterError {| ae_game_id := g;
                               error_type := InvalidGameStage (Connect4.stage m.(data).(adapter)) |})) /\
     (Connect4.stage m.(data).(adapter) = Waiting -> u = EmptyString ->
        (receive_join now draws g u mgr).1 = Err (ManagerError (InvalidUsername u TooShort))) /\
     (Connect4.stage m.(data).(adapter) = Waiting -> u <> EmptyString ->
        (MAX_USERNAME_LENGTH < String.length u)%nat ->
        (receive_join now draws g u mgr).1 = Err (ManagerError (InvalidUsername u TooLong))) /\
     (Connect4.stage m.(data).(adapter) = Waiting -> u <> EmptyString ->
        (String.length u <= MAX_USERNAME_LENGTH)%nat -> In u (Connect4.players m.(data).(adapter)) ->
        (receive_join now draws g u mgr).1 = Err (ManagerError (InvalidUsername u (AlreadyInGame g)))) /\
     (Connect4.stage m.(data).(adapter) = Waiting -> u <> EmptyString ->
        (String.length u <= MAX_USERNAME_LENGTH)%nat -> ~ In u (Connect4.players m.(data).(adapter)) ->
        Exists (fun sid => m.(data).(sessions) !! sid = None) draws ->
        exists sid m',
          (receive_join now draws g u mgr).1 = Ok sid /\ In sid draws /\
          m.(data).(sessions) !! sid = None /\
          (receive_join now draws g u mgr).2 !! g = Some m' /\
          m'.(data).(sessions) !! sid = Some {| username := u |} /\
          In u (Connect4.players m'.(data).(adapter)))).
Proof.
  intros Hv. split.
  { intros Hg. unfold receive_join, with_lock. by rewrite Hg. }
  intros m Hg. destruct (map_Forall_lookup_1 _ _ _ _ Hv Hg) as (Hh & Hp & Ha).
  unfold receive_join. rewrite (with_lock_some _ _ _ _ Hg Hh Hp). cbn [fst snd].
  unfold join_locked.
  change (get_stage (adapter (data m))) with (Connect4.stage (adapter (data m))).
  change (has_player (adapter (data m)) u) with (Connect4.has_player (adapter (data m)) u).
  change (add_player u (adapter (data m))) with (Connect4.add_player u (adapter (data m))).
  destruct (Connect4.stage (adapter (data m))) eqn:Hst;
    [| repeat split; intros; first [discriminate | reflexivity]
     | repeat split; intros; first [discriminate | reflexivity]].
  cbn [stage_eqb negb].
  split; [intros; congruence|].
  destruct (String.eqb_spec u EmptyString) as [->|Hne].
  { split; [intros; reflexivity|]. split; [intros; congruence|].
    split; intros; congruence. }
  split; [intros; congruence|].
  destruct (Nat.ltb_spec MAX_USERNAME_LENGTH (String.length u)) as [Hlong|Hshort].
  { split; [intros; reflexivity|]. split; intros; lia. }
  split; [intros; lia|].
  destruct (Connect4.has_player (adapter (data m)) u) eqn:Hhas.
  { split; [intros; reflexivity|]. intros _ _ _ Hnin. apply has_player_In in Hhas. contradiction. }
  split; [intros _ _ _ Hin; apply has_player_In in Hin; congruence|].
  intros _ _ _ _ Hex.
  destruct (Connect4.add_player_valid u _ Ha Hst) as [Hok _].
  assert (Hpl : Connect4.players (Connect4.add_player u (adapter (data m))).2 =
                Connect4.players (adapter (data m)) ++ [u]).
  { unfold Connect4.add_player in *. rewrite Hst in *.
    cbn [stage_eqb negb] in *. repeat case_match; cbn in *; congruence. }
  destruct (Connect4.add_player u (adapter (data m))) as [r a'] eqn:Hadd.
  cbn in Hok, Hpl. subst r.
  destruct (insert_fresh_session_spec {| username := u |} draws
              {| adapter := a'; sessions := sessions (data m); last_update := now |} Hex)
    as (sid & Heq & Hin & Hfresh).
  rewrite Heq. cbn [fst snd].
  eexists sid, _. split; [reflexivity|]. split; [exact Hin|]. split; [exact Hfresh|].
  split; [apply lookup_insert_eq|]. cbn. split; [apply lookup_insert_eq|].
  rewrite Hpl. apply in_or_app. right. left. reflexivity.
Qed.

(** *** Idle eviction by [gc_games] *)

Section Eviction.
Context {A : Type} `{GameAdapter A}.








Lemma result_map_ok {B C} (f : B -> C) r c :
  result_map f r = Ok c -> exists b, r = Ok b /\ c = f b.
Proof. destruct r; cbn; intros E; try discriminate. injection E as <-. eauto. Qed.





Lemma sweep_blocked_false (mgr : gmap GameId (@Mutex A)) :
  sweep_blocked mgr = false <-> map_Forall (fun _ m => m.(held) = false) mgr.
Proof.
  unfold sweep_blocked. rewrite map_Forall_to_list. rewrite <- not_true_iff_false.
  rewrite existsb_exists. split.
  - intros Hn. apply Forall_forall. intros [k m] Hin. cbn.
    apply not_true_iff_false. intros Hh. apply Hn. exists (k, m).
    split; [by apply list_elem_of_In|done].
  - intros Hall [[k m] [Hin Hh]]. apply list_elem_of_In in Hin.
    eapply Forall_forall in Hall; [|exact Hin]. cbn in *. congruence.
Qed.



End Eviction.




Lemma error_atomicity_witness :
  (receive_join 2 [demo_session2] demo_game "alice" demo_waiting).1 =
    Err (ManagerError (InvalidUsername "alice" (AlreadyInGame demo_game))) /\
  registry_owned (receive_join 2 [demo_session2] demo_game "alice" demo_waiting).2 =
    registry_owned demo_waiting /\
  (receive_move 3 demo_game demo_session1 (VObject [("column", VNumber 0)]) demo_waiting).1 =
    Err (AdapterError {| ae_game_id := demo_game; error_type := InvalidGameStage Waiting |}) /\
  registry_owned
    (receive_move 3 demo_game demo_session1 (VObject [("column", VNumber 0)]) demo_waiting).2 =
    registry_owned demo_waiting.
Proof.
  split; [vm_compute; reflexivity|].
  split; [apply (proj1 error_atomicity) with
            (e := ManagerError (InvalidUsername "alice" (AlreadyInGame demo_game)));
          vm_compute; reflexivity|].
  split; [vm_compute; reflexivity|].
  apply (proj2 error_atomicity) with
    (e := AdapterError {| ae_game_id := demo_game; error_type := InvalidGameStage Waiting |}).
  vm_compute; reflexivity.
Defined.

End Registry.

(* ------------------------------------------------------------------ *)
(** ** Further properties of the Connect 4 adapter *)

Module Connect4Facts.
Import Adapter Connect4.

(** *** Dropping a token *)

(** A successful [insert_move_if_legal] puts the current token on top of
    the column, where [get_cell_at] reads it, and changes no other cell. *)
Theorem insert_move_if_legal_top (column : Z) (c : Connect4) (col : list Token) :
  0 <= column < Z.of_nat COL_SIZE ->
  c.(board) !! Z.to_nat column = Some col -> (length col < ROW_SIZE)%nat ->
  exists c',
    insert_move_if_legal column c = (Ok tt, c') /\
    c'.(board) = <[Z.to_nat column := col ++ [c.(turn)]]> c.(board) /\
    c'.(turn) = c.(turn) /\ c'.(completed) = c.(completed) /\
    get_cell_at c' (Z.of_nat (length col)) column = Some c.(turn) /\
    (forall row k, (row, k) <> (Z.of_nat (length col), column) ->
       get_cell_at c' row k = get_cell_at c row k).
Proof.
  intros Hc Hcol Hlen. unfold insert_move_if_legal.
  destruct (Z.leb_spec (Z.of_nat COL_SIZE) column); [lia|]. rewrite Hcol.
  destruct (Nat.leb_spec ROW_SIZE (length col)); [lia|].
  eexists. split; [reflexivity|]. cbn. split; [done|]. split; [done|]. split; [done|].
  assert (Hk : (Z.to_nat column < length (board c))%nat)
    by (apply lookup_lt_is_Some_1; by eexists).
  split.
  - unfold get_cell_at. cbn.
    replace ((Z.of_nat (length col) <? 0) || (column <? 0)
             || (Z.of_nat ROW_SIZE <=? Z.of_nat (length col))
             || (Z.of_nat COL_SIZE <=? column)) with false
      by (symmetry; repeat rewrite orb_false_iff; repeat split;
          first [apply Z.ltb_ge | apply Z.leb_gt]; lia).
    rewrite list_lookup_insert_eq by done. cbn.
    rewrite Nat2Z.id, lookup_app_r by lia. by rewrite Nat.sub_diag.
  - intros row k Hne. unfold get_cell_at. cbn.
    destruct ((row <? 0) || (k <? 0) || (Z.of_nat ROW_SIZE <=? row)
              || (Z.of_nat COL_SIZE <=? k)) eqn:Hout; [done|].
    repeat rewrite orb_false_iff in Hout.
    destruct Hout as [[[H1 H2] H3] H4].
    apply Z.ltb_ge in H1, H2. apply Z.leb_gt in H3, H4.
    destruct (decide (Z.to_nat k = Z.to_nat column)) as [Heq|Hneq].
    + assert (k = column) as -> by lia.
      rewrite list_lookup_insert_eq by done. rewrite Hcol. cbn.
      assert (row <> Z.of_nat (length col)) by congruence.
      destruct (decide (row < Z.of_nat (length col))).
      * by rewrite lookup_app_l by lia.
      * rewrite lookup_app_r by lia.
        rewrite (lookup_ge_None_2 col) by lia.
        apply lookup_ge_None_2. cbn. lia.
    + by rewrite list_lookup_insert_ne by done.
Qed.

(** *** Failed moves *)

Lemma moves_not_ok_same (column : Z) (c : Connect4) :
  (moves column c).1 <> Ok tt -> (moves column c).2 = c.
Proof.
  unfold moves, insert_move_if_legal. intros H.
  repeat case_match; cbn in *; done.
Qed.

Lemma get_user_from_token_not_err a e : get_user_from_token a <> Err e.
Proof. unfold get_user_from_token. by case_match. Qed.

Lemma winning_move_not_err c column e : winning_move c column <> Err e.
Proof. unfold winning_move. by repeat case_match. Qed.

Lemma finish_move_not_err a w d e : (finish_move a w d).1 <> Err e.
Proof.
  unfold finish_move.
  destruct w; [destruct (get_user_from_token a) eqn:Hu|]; cbn; try done.
  exfalso. by eapply get_user_from_token_not_err.
Qed.

Lemma with_game_same a : with_game a a.(game) = a.
Proof. by destruct a. Qed.

Lemma play_move_err_same (mv : GenericGameMove) (a : Connect4Adapter) (e : Error) :
  (play_move mv a).1 = Err e -> (play_move mv a).2 = a.
Proof.
  unfold play_move. intros H.
  destruct (stage_eqb (stage a) Waiting); [done|].
  destruct (stage_eqb (stage a) Ended); [done|].
  destruct (parse_request_payload (move_payload mv)) as [column|]; [|done].
  destruct (get_user_from_token a) as [p|e'|m|]; try done.
  destruct (negb (String.eqb p (player mv))); [done|].
  pose proof (moves_not_ok_same column (game a)) as Hsame.
  destruct (moves column (game a)) as [r c] eqn:Hm. cbn in Hsame.
  destruct r as [[]|e'|m|]; cbn in H |- *.
  - destruct (winning_move c column) as [w|e'|m|] eqn:Hw.
    + exfalso. by apply (finish_move_not_err (with_game a c) w (is_game_drawn c) e).
    + exfalso. by apply (winning_move_not_err c column e').
    + discriminate.
    + discriminate.
  - rewrite Hsame by discriminate. apply with_game_same.
  - discriminate.
  - discriminate.
Qed.

(** [play_move] is atomic on errors: whenever it returns an error, the
    adapter is left exactly as it was. *)
Theorem play_move_err_unchanged (mv : GenericGameMove) (a : Connect4Adapter) (e : Error) :
  (play_move mv a).1 = Err e -> (play_move mv a).2 = a.
Proof. exact (play_move_err_same mv a e). Qed.

(** *** Successful moves *)

Lemma play_move_ok_cases (mv : GenericGameMove) (a : Connect4Adapter) :
  (play_move mv a).1 = Ok tt ->
  a.(stage) = InProgress /\ a.(game).(completed) = false /\
  get_user_from_token a = Ok mv.(player) /\
  (play_move mv a).2.(players) = a.(players) /\
  exists column col,
    parse_request_payload mv.(move_payload) = Some column /\
    column < Z.of_nat COL_SIZE /\
    a.(game).(board) !! Z.to_nat column = Some col /\ (length col < ROW_SIZE)%nat /\
    (play_move mv a).2.(game).(board) =
      <[Z.to_nat column := col ++ [a.(game).(turn)]]> a.(game).(board) /\
    (((play_move mv a).2.(stage) = Ended /\ (play_move mv a).2.(game).(completed) = true /\
      (play_move mv a).2.(game).(turn) = a.(game).(turn) /\
      ((play_move mv a).2.(winner) = a.(winner) \/
       (play_move mv a).2.(winner) = a.(winner) ++ [mv.(player)])) \/
     ((play_move mv a).2.(stage) = InProgress /\ (play_move mv a).2.(game).(completed) = false /\
      (play_move mv a).2.(game).(turn) <> a.(game).(turn) /\
      (play_move mv a).2.(winner) = a.(winner))).
Proof.
  unfold play_move. intros H.
  destruct (stage a) eqn:Hs; cbn in H |- *; try discriminate.
  destruct (parse_request_payload (move_payload mv)) as [column|] eqn:Hpay; [|discriminate].
  destruct (get_user_from_token a) as [p|e|m|] eqn:Hu; try discriminate.
  destruct (String.eqb_spec p (player mv)) as [<-|Hne]; cbn in H |- *; [|discriminate].
  unfold moves in *. destruct (completed (game a)) eqn:Hc; [discriminate|].
  unfold insert_move_if_legal in *.
  destruct (Z.leb_spec (Z.of_nat COL_SIZE) column); [discriminate|].
  destruct (board (game a) !! Z.to_nat column) as [col|] eqn:Hcol; [|discriminate].
  destruct (Nat.leb_spec ROW_SIZE (length col)); [discriminate|].
  cbn in H |- *.
  set (c := set_board (game a) (<[Z.to_nat column:=col ++ [turn (game a)]]> (board (game a)))) in *.
  destruct (winning_move c column) as [w|e|m|] eqn:Hw; cbn in H; try discriminate.
  assert (Hu' : get_user_from_token (with_game a c) = Ok p) by (rewrite <- Hu; reflexivity).
  unfold finish_move in *. rewrite Hu' in H |- *.
  split; [done|]. split; [done|]. split; [done|].
  destruct w; cbn.
  { split; [done|]. exists column, col. do 5 (split; [done|]). left. eauto. }
  match goal with |- context [if forallb ?f ?l then _ else _] => destruct (forallb f l) end; cbn.
  { split; [done|]. exists column, col. do 5 (split; [done|]). left. eauto. }
  split; [done|]. exists column, col. do 5 (split; [done|]). right.
  split; [done|]. split; [done|]. split; [|done].
  destruct (turn (game a)); discriminate.
Qed.

(** A successful [play_move] was made in an [InProgress] game by the player
    whose turn it was, with a parsable column that exists and is not full;
    it puts that player's token on top of the column and keeps the players.
    Either the game ends there (the turn stays, and the mover is added to
    the winners or nobody is), or it goes on with the other player's turn. *)
Theorem play_move_ok (mv : GenericGameMove) (a : Connect4Adapter) :
  (play_move mv a).1 = Ok tt ->
  a.(stage) = InProgress /\ a.(game).(completed) = false /\
  get_user_from_token a = Ok mv.(player) /\
  (play_move mv a).2.(players) = a.(players) /\
  exists column col,
    parse_request_payload mv.(move_payload) = Some column /\
    column < Z.of_nat COL_SIZE /\
    a.(game).(board) !! Z.to_nat column = Some col /\ (length col < ROW_SIZE)%nat /\
    (play_move mv a).2.(game).(board) =
      <[Z.to_nat column := col ++ [a.(game).(turn)]]> a.(game).(board) /\
    (((play_move mv a).2.(stage) = Ended /\ (play_move mv a).2.(game).(completed) = true /\
      (play_move mv a).2.(game).(turn) = a.(game).(turn) /\
      ((play_move mv a).2.(winner) = a.(winner) \/
       (play_move mv a).2.(winner) = a.(winner) ++ [mv.(player)])) \/
     ((play_move mv a).2.(stage) = InProgress /\ (play_move mv a).2.(game).(completed) = false /\
      (play_move mv a).2.(game).(turn) <> a.(game).(turn) /\
      (play_move mv a).2.(winner) = a.(winner))).
Proof. exact (play_move_ok_cases mv a). Qed.

(** *** Token counts *)

(** The number of tokens of one colour on a board. *)
Definition count_in_column (t : Token) (col : list Token) : nat :=
  length (List.filter (token_eqb t) col).

Definition count_token (t : Token) (b : list (list Token)) : nat :=
  sum_list_with (count_in_column t) b.

(** The invariant of an adapter built by [new], [add_player] and
    [play_move]. *)
Definition token_inv (a : Connect4Adapter) : Prop :=
  valid a /\
  Forall (fun col => (length col <= ROW_SIZE)%nat) a.(game).(board) /\
  (a.(stage) = Ended <-> a.(game).(completed) = true) /\
  (count_token Red a.(game).(board) = count_token Blue a.(game).(board) \/
   count_token Red a.(game).(board) = S (count_token Blue a.(game).(board))) /\
  (a.(game).(completed) = false ->
     (a.(game).(turn) = Red <-> count_token Red a.(game).(board) = count_token Blue a.(game).(board))) /\
  (a.(game).(completed) = true ->
     (a.(game).(turn) = Red <-> count_token Red a.(game).(board) = S (count_token Blue a.(game).(board)))) /\
  (length a.(winner) <= 1)%nat /\
  (a.(stage) <> Ended -> a.(winner) = []).

Lemma sum_list_with_insert {X} (f : X -> nat) (l : list X) (i : nat) x y :
  l !! i = Some x ->
  (sum_list_with f (<[i := y]> l) + f x = sum_list_with f l + f y)%nat.
Proof.
  revert i. induction l as [|z l IH]; intros [|i] Hi; try discriminate.
  - injection Hi as ->. change (<[0%nat := y]> (x :: l)) with (y :: l).
    cbn [sum_list_with]. lia.
  - change ((z :: l) !! S i) with (l !! i) in Hi.
    change (<[S i := y]> (z :: l)) with (z :: <[i := y]> l).
    cbn [sum_list_with]. specialize (IH i Hi). lia.
Qed.

Lemma count_token_insert t b (i : nat) col col' :
  b !! i = Some col ->
  (count_token t (<[i := col']> b) + count_in_column t col =
   count_token t b + count_in_column t col')%nat.
Proof. apply sum_list_with_insert. Qed.

Lemma count_in_column_snoc t col x :
  count_in_column t (col ++ [x]) = (count_in_column t col + if token_eqb t x then 1 else 0)%nat.
Proof.
  unfold count_in_column. rewrite List.filter_app, length_app. cbn. by destruct (token_eqb t x).
Qed.

Lemma count_token_new t g : count_token t (new g).(game).(board) = 0%nat.
Proof. reflexivity. Qed.

Lemma token_inv_new g : token_inv (new g).
Proof.
  split; [apply new_valid|]. cbn.
  split; [repeat constructor; cbv; lia|].
  split; [split; discriminate|].
  split; [by left|]. split; [done|]. split; [discriminate|].
  split; [cbn; lia|done].
Qed.

Lemma add_player_token_inv u a : token_inv a -> token_inv (add_player u a).2.
Proof.
  intros Hi. pose proof Hi as (Hv & Hcol & Hend & Hcnt & Hf & Ht & Hw1 & Hw2).
  destruct (stage a) eqn:Hs.
  2,3: unfold add_player; destruct (Nat.ltb _ _); cbn; [|exact Hi]; rewrite Hs; exact Hi.
  pose proof (proj2 (add_player_valid u a Hv Hs)) as Hv'.
  assert (Hc : completed (game a) = false)
    by (destruct (completed (game a)) eqn:E; [pose proof (proj2 Hend eq_refl); discriminate|done]).
  unfold add_player in *. rewrite Hs in *.
  destruct (Nat.ltb _ _); cbn in *; [|exact Hi].
  split; [exact Hv'|]. cbn. split; [done|].
  split; [split; [case_match; discriminate|congruence]|].
  do 3 (split; [done|]). split; [done|].
  intros _. apply Hw2. congruence.
Qed.

Lemma moves_not_pending (column : Z) (c : Connect4) : (moves column c).1 <> Pending.
Proof. unfold moves, insert_move_if_legal. by repeat case_match. Qed.

Lemma finish_move_not_pending a w d : (finish_move a w d).1 <> Pending.
Proof.
  unfold finish_move.
  destruct w; [destruct (get_user_from_token a) eqn:Hu|]; cbn; try done.
  unfold get_user_from_token in Hu. case_match; discriminate.
Qed.

Lemma play_move_not_pending (mv : GenericGameMove) (a : Connect4Adapter) :
  (play_move mv a).1 <> Pending.
Proof.
  unfold play_move.
  destruct (stage_eqb (stage a) Waiting); [done|].
  destruct (stage_eqb (stage a) Ended); [done|].
  destruct (parse_request_payload (move_payload mv)) as [column|]; [|done].
  destruct (get_user_from_token a) as [p|e'|m|] eqn:Hu; try done.
  2:{ unfold get_user_from_token in Hu. case_match; discriminate. }
  destruct (negb (String.eqb p (player mv))); [done|].
  pose proof (moves_not_pending column (game a)) as Hnp.
  destruct (moves column (game a)) as [r c]. cbn in Hnp.
  destruct r as [[]|e'|m|]; cbn; try done.
  destruct (winning_move c column) as [w|e'|m|] eqn:Hw; cbn; try done.
  - apply finish_move_not_pending.
  - unfold winning_move in Hw. by repeat case_match.
Qed.

Lemma play_move_token_inv mv a : token_inv a -> token_inv (play_move mv a).2.
Proof.
  intros Hi. pose proof Hi as (Hv & Hcol & Hend & Hcnt & Hf & Ht & Hw1 & Hw2).
  destruct (play_move mv a).1 as [[]|e|m|] eqn:Hr.
  3:{ pose proof (proj1 (play_move_valid mv a Hv)) as Hp. by rewrite Hr in Hp. }
  3:{ by apply play_move_not_pending in Hr. }
  2:{ by rewrite (play_move_err_same mv a e Hr). }
  pose proof (proj2 (play_move_valid mv a Hv)) as Hv'.
  destruct (play_move_ok_cases mv a Hr)
    as (Hs & Hc & Hu & Hpl & column & col & Hpay & Hlt & Hcl & Hlen & Hb & Hout).
  set (a' := (play_move mv a).2) in *.
  assert (Hcount : forall t, count_token t a'.(game).(board) =
            (count_token t a.(game).(board) + if token_eqb t a.(game).(turn) then 1 else 0)%nat).
  { intros t. pose proof (count_token_insert t (board (game a)) (Z.to_nat column) col
                            (col ++ [turn (game a)]) Hcl) as E.
    rewrite count_in_column_snoc in E. rewrite Hb. lia. }
  assert (Hw0 : winner a = []) by (apply Hw2; congruence).
  specialize (Hf Hc).
  pose proof (Hcount Red) as HR. pose proof (Hcount Blue) as HB.
  split; [exact Hv'|].
  split.
  { rewrite Hb. apply Forall_insert; [done|]. rewrite length_app. cbn. lia. }
  destruct (turn (game a)) eqn:Hturn; cbn in HR, HB.
  - assert (Heq := proj1 Hf eq_refl).
    destruct Hout as [(He & Hc' & Ht' & Hw')|(He & Hc' & Ht' & Hw')].
    + split; [split; congruence|]. split; [right; lia|].
      split; [congruence|]. split; [intros _; split; [lia|congruence]|].
      split; [destruct Hw' as [-> | ->]; rewrite Hw0; cbn; lia|congruence].
    + split; [split; congruence|]. split; [right; lia|].
      split; [intros _; split; [intros; destruct (turn (game a')); congruence|lia]|].
      split; [congruence|]. rewrite Hw', Hw0. split; [cbn; lia|done].
  - assert (Hne : count_token Red (board (game a)) <> count_token Blue (board (game a)))
      by (intros E; apply Hf in E; discriminate).
    assert (HS : count_token Red (board (game a)) = S (count_token Blue (board (game a))))
      by (destruct Hcnt; [contradiction|done]).
    destruct Hout as [(He & Hc' & Ht' & Hw')|(He & Hc' & Ht' & Hw')].
    + split; [split; congruence|]. split; [left; lia|].
      split; [congruence|]. split; [intros _; split; [congruence|lia]|].
      split; [destruct Hw' as [-> | ->]; rewrite Hw0; cbn; lia|congruence].
    + split; [split; congruence|]. split; [left; lia|].
      split; [intros _; split; [lia|intros; destruct (turn (game a')); congruence]|].
      split; [congruence|]. rewrite Hw', Hw0. split; [cbn; lia|done].
Qed.

Lemma run_ops_token_inv ops a : token_inv a -> token_inv (run_ops ops a).
Proof.
  revert a. induction ops as [|op ops IH]; intros a Hi; cbn; [done|].
  apply IH. destruct op; [apply add_player_token_inv|apply play_move_token_inv]; done.
Qed.

(** Along every sequence of [add_player] and [play_move] calls on a new
    game, Red has as many tokens on the board as Blue or one more, no
    column holds more than [ROW_SIZE] tokens, and while the game is not
    over it is Red's turn exactly when both colours have as many tokens. *)
Theorem token_balance (g : GameId) (ops : list AdapterOp) :
  (count_token Red (run_ops ops (new g)).(game).(board) =
     count_token Blue (run_ops ops (new g)).(game).(board) \/
   count_token Red (run_ops ops (new g)).(game).(board) =
     S (count_token Blue (run_ops ops (new g)).(game).(board))) /\
  Forall (fun col => (length col <= ROW_SIZE)%nat) (run_ops ops (new g)).(game).(board) /\
  ((run_ops ops (new g)).(stage) <> Ended ->
     ((run_ops ops (new g)).(game).(turn) = Red <->
      count_token Red (run_ops ops (new g)).(game).(board) =
        count_token Blue (run_ops ops (new g)).(game).(board))).
Proof.
  destruct (run_ops_token_inv ops (new g) (token_inv_new g))
    as (_ & Hcol & Hend & Hcnt & Hf & _ & _ & _).
  split; [done|]. split; [done|].
  intros Hne. apply Hf. destruct (completed _) eqn:E; [|done].
  exfalso. by apply Hne, Hend.
Qed.

(** Along every sequence of [add_player] and [play_move] calls on a new
    game, the adapter records at most one winner, and none before the
    game has ended. *)
Theorem winners_at_most_one (g : GameId) (ops : list AdapterOp) :
  (length (run_ops ops (new g)).(winner) <= 1)%nat /\
  ((run_ops ops (new g)).(stage) <> Ended -> (run_ops ops (new g)).(winner) = []).
Proof.
  destruct (run_ops_token_inv ops (new g) (token_inv_new g)) as (_ & _ & _ & _ & _ & _ & ? & ?).
  done.
Qed.

(** *** Soundness of [winning_move] *)

Lemma count_run_ge c fuel row col dr dc len : len <= count_run c fuel row col dr dc len.
Proof.
  revert row col len. induction fuel as [|f IH]; intros row col len; cbn; [lia|].
  destruct (get_cell_at c row col) as [t|]; [|lia].
  destruct (token_eqb t (turn c)); [|lia]. specialize (IH (row + dr) (col + dc) (len + 1)). lia.
Qed.

(** The loop counts cells of the current token, one step at a time. *)
Lemma count_run_cells c fuel row col dr dc len j :
  0 <= j < count_run c fuel row col dr dc len - len ->
  get_cell_at c (row + j * dr) (col + j * dc) = Some c.(turn).
Proof.
  revert row col len j. induction fuel as [|f IH]; intros row col len j Hj; cbn in Hj; [lia|].
  destruct (get_cell_at c row col) as [t|] eqn:E; [|lia].
  destruct (token_eqb t (turn c)) eqn:Et; [|lia].
  destruct (Z.eq_dec j 0) as [->|Hj0].
  - rewrite !Z.mul_0_l, !Z.add_0_r, E. destruct t, (turn c); cbn in Et; congruence.
  - replace (row + j * dr) with (row + dr + (j - 1) * dr) by ring.
    replace (col + j * dc) with (col + dc + (j - 1) * dc) by ring.
    apply (IH _ _ (len + 1)). lia.
Qed.

Lemma count_run_first c fuel row col dr dc :
  get_cell_at c row col = Some c.(turn) -> 1 <= count_run c (S fuel) row col dr dc 0.
Proof.
  intros E. cbn. rewrite E. destruct (turn c); cbn; apply count_run_ge.
Qed.

(** Two runs in opposite directions from one cell, of total length more
    than 4 (the start cell is counted twice), hold four aligned cells
    through that cell. *)
Lemma opposite_runs c fuel row col dr dc :
  4 < count_run c (S fuel) row col dr dc 0 + count_run c (S fuel) row col (- dr) (- dc) 0 ->
  exists r0 c0,
    (forall j, 0 <= j < 4 -> get_cell_at c (r0 + j * - dr) (c0 + j * - dc) = Some c.(turn)) /\
    exists j0, 0 <= j0 < 4 /\ r0 + j0 * - dr = row /\ c0 + j0 * - dc = col.
Proof.
  intros Hsum.
  pose proof (count_run_ge c (S fuel) row col dr dc 0) as Hl1.
  pose proof (count_run_ge c (S fuel) row col (- dr) (- dc) 0) as Hl2.
  remember (count_run c (S fuel) row col dr dc 0) as l1 eqn:E1.
  remember (count_run c (S fuel) row col (- dr) (- dc) 0) as l2 eqn:E2.
  assert (Hstart : get_cell_at c row col = Some (turn c)).
  { destruct (Z.lt_ge_cases 0 l1) as [H|H].
    - pose proof (count_run_cells c (S fuel) row col dr dc 0 0) as E.
      rewrite !Z.mul_0_l, !Z.add_0_r in E. apply E. rewrite <- E1. lia.
    - pose proof (count_run_cells c (S fuel) row col (- dr) (- dc) 0 0) as E.
      rewrite !Z.mul_0_l, !Z.add_0_r in E. apply E. rewrite <- E2. lia. }
  assert (H1 : 1 <= l1) by (rewrite E1; apply count_run_first, Hstart).
  set (m := Z.min (l1 - 1) 3).
  assert (Hm : m = l1 - 1 \/ m = 3) by lia.
  assert (Hm' : 0 <= m <= l1 - 1 /\ m <= 3) by lia.
  clearbody m.
  exists (row + m * dr), (col + m * dc). split.
  - intros j Hj. destruct (Z.le_gt_cases j m).
    + replace (row + m * dr + j * - dr) with (row + (m - j) * dr) by ring.
      replace (col + m * dc + j * - dc) with (col + (m - j) * dc) by ring.
      apply (count_run_cells c (S fuel) row col dr dc 0). rewrite <- E1. lia.
    + replace (row + m * dr + j * - dr) with (row + (j - m) * - dr) by ring.
      replace (col + m * dc + j * - dc) with (col + (j - m) * - dc) by ring.
      apply (count_run_cells c (S fuel) row col (- dr) (- dc) 0). rewrite <- E2. lia.
  - exists m. split; [|split; ring]. lia.
Qed.

Lemma to_isize_small (x : Z) : 0 <= x < 2 ^ 63 -> to_isize x = x.
Proof. intros Hx. unfold to_isize. destruct (Z.ltb_spec x (2 ^ 63)); lia. Qed.

Lemma get_cell_at_some_row c row col t :
  get_cell_at c row col = Some t -> 0 <= row < Z.of_nat ROW_SIZE /\ 0 <= col < Z.of_nat COL_SIZE.
Proof.
  unfold get_cell_at. intros H.
  destruct (row <? 0) eqn:E1, (col <? 0) eqn:E2, (Z.of_nat ROW_SIZE <=? row) eqn:E3,
    (Z.of_nat COL_SIZE <=? col) eqn:E4; cbn in H; try discriminate.
  apply Z.ltb_ge in E1, E2. apply Z.leb_gt in E3, E4. lia.
Qed.

(** When [winning_move] reports a win after a drop into [column], the token
    just dropped (the top of that column) lies on a line of four cells of
    the current token: vertical, horizontal or one of the two diagonals. *)
Lemma winning_move_sound (c : Connect4) (column : Z) (col : list Token) :
  0 <= column ->
  c.(board) !! Z.to_nat column = Some col ->
  (length col <= ROW_SIZE)%nat ->
  winning_move c column = Ok true ->
  exists dr dc r0 c0,
    In (dr, dc) [(-1, 0); (0, 1); (-1, 1); (1, 1)] /\
    (forall j, 0 <= j < 4 -> get_cell_at c (r0 + j * dr) (c0 + j * dc) = Some c.(turn)) /\
    exists j0, 0 <= j0 < 4 /\ r0 + j0 * dr = Z.of_nat (length col) - 1 /\ c0 + j0 * dc = column.
Proof.
  intros Hc Hcol Hlen Hw. unfold winning_move in Hw.
  destruct (Z.leb_spec (Z.of_nat COL_SIZE) column) as [Hge|Hlt]; [discriminate|].
  rewrite Hcol in Hw.
  destruct (Nat.eq_dec (length col) 0%nat) as [H0|H0].
  { exfalso. rewrite H0 in Hw. vm_compute in Hw. discriminate. }
  rewrite (to_isize_small column) in Hw by (unfold COL_SIZE in Hlt; lia).
  assert (Hrow : to_isize (wrap_usize (Z.of_nat (length col) - 1)) = Z.of_nat (length col) - 1).
  { unfold wrap_usize, usize_modulus. rewrite Z.mod_small by (unfold ROW_SIZE in Hlen; lia).
    apply to_isize_small. unfold ROW_SIZE in Hlen; lia. }
  rewrite Hrow in Hw. clear Hrow.
  set (r := Z.of_nat (length col) - 1) in *. clearbody r.
  remember (count_run c 8 r column) as cr eqn:Ecr.
  cbv [seq map nth existsb direction_row direction_col Nat.mul Nat.add orb CONNECT_FOUR] in Hw.
  subst cr.
  assert (Hok : forall b : bool, Ok b = Ok true -> b = true) by congruence.
  apply Hok in Hw. clear Hok. revert Hw.
  destruct (Z.leb_spec 4 (count_run c 8 r column (-1) 0 0)) as [Hv|_].
  { intros _. exists (-1), 0, r, column. split; [cbn; tauto|]. split.
    - intros j Hj. apply (count_run_cells c 8 r column (-1) 0 0). lia.
    - exists 0. split; [lia|split; ring]. }
  destruct (Z.ltb_spec 4 (count_run c 8 r column 0 (-1) 0 + count_run c 8 r column 0 1 0))
    as [Hh|_].
  { intros _. destruct (opposite_runs c 7 r column 0 (-1) Hh) as (r0 & c0 & Hcells & j0 & Hj0 & Hr0 & Hc0).
    exists 0, 1, r0, c0. split; [cbn; tauto|]. split; [exact Hcells|]. exists j0. auto. }
  destruct (Z.ltb_spec 4 (count_run c 8 r column 1 (-1) 0 + count_run c 8 r column (-1) 1 0))
    as [Hd|_].
  { intros _. destruct (opposite_runs c 7 r column 1 (-1) Hd) as (r0 & c0 & Hcells & j0 & Hj0 & Hr0 & Hc0).
    exists (-1), 1, r0, c0. split; [cbn; tauto|]. split; [exact Hcells|]. exists j0. auto. }
  destruct (Z.ltb_spec 4 (count_run c 8 r column (-1) (-1) 0 + count_run c 8 r column 1 1 0))
    as [Ha|_]; [intros _|cbn; intros Hf; discriminate Hf].
  destruct (opposite_runs c 7 r column (-1) (-1) Ha) as (r0 & c0 & Hcells & j0 & Hj0 & Hr0 & Hc0).
  exists 1, 1, r0, c0. split; [cbn; tauto|]. split; [exact Hcells|]. exists j0. auto.
Qed.

(** *** Concrete runs *)

Definition c4_started : Connect4Adapter :=
  run_ops [OpAddPlayer "alice"; OpAddPlayer "bob"] (new [1; 2; 3; 4]).

Definition c4_won : Connect4Adapter := run_ops demo_ops (new [1; 2; 3; 4]).

Definition column_move (p : string) (n : Z) : GenericGameMove :=
  {| player := p; move_payload := VObject [("column", VNumber n)] |}.

Lemma insert_move_if_legal_top_witness :
  exists c',
    insert_move_if_legal 3 c4_started.(game) = (Ok tt, c') /\
    c'.(board) = <[Z.to_nat 3 := [] ++ [c4_started.(game).(turn)]]> c4_started.(game).(board) /\
    c'.(turn) = c4_started.(game).(turn) /\ c'.(completed) = c4_started.(game).(completed) /\
    get_cell_at c' (Z.of_nat (length (@nil Token))) 3 = Some c4_started.(game).(turn) /\
    (forall row k, (row, k) <> (Z.of_nat (length (@nil Token)), 3) ->
       get_cell_at c' row k = get_cell_at c4_started.(game) row k).
Proof.
  apply (insert_move_if_legal_top 3 c4_started.(game) []).
  - unfold COL_SIZE. lia.
  - vm_compute. reflexivity.
  - cbn. unfold ROW_SIZE. lia.
Defined.

Lemma play_move_err_unchanged_witness :
  (play_move {| player := "alice"; move_payload := VString "left" |} c4_started).1 = Err SerdeError /\
  (play_move {| player := "alice"; move_payload := VString "left" |} c4_started).2 = c4_started.
Proof.
  assert (H : (play_move {| player := "alice"; move_payload := VString "left" |} c4_started).1
              = Err SerdeError) by (vm_compute; reflexivity).
  split; [exact H|]. exact (play_move_err_unchanged _ _ _ H).
Defined.

Lemma play_move_ok_witness :
  (play_move (column_move "alice" 3) c4_started).1 = Ok tt /\
  c4_started.(stage) = InProgress /\ c4_started.(game).(completed) = false /\
  get_user_from_token c4_started = Ok (column_move "alice" 3).(player) /\
  (play_move (column_move "alice" 3) c4_started).2.(players) = c4_started.(players) /\
  exists column col,
    parse_request_payload (column_move "alice" 3).(move_payload) = Some column /\
    column < Z.of_nat COL_SIZE /\
    c4_started.(game).(board) !! Z.to_nat column = Some col /\ (length col < ROW_SIZE)%nat /\
    (play_move (column_move "alice" 3) c4_started).2.(game).(board) =
      <[Z.to_nat column := col ++ [c4_started.(game).(turn)]]> c4_started.(game).(board) /\
    (((play_move (column_move "alice" 3) c4_started).2.(stage) = Ended /\ (play_move (column_move "alice" 3) c4_started).2.(game).(completed) = true /\
      (play_move (column_move "alice" 3) c4_started).2.(game).(turn) = c4_started.(game).(turn) /\
      ((play_move (column_move "alice" 3) c4_started).2.(winner) = c4_started.(winner) \/
       (play_move (column_move "alice" 3) c4_started).2.(winner) = c4_started.(winner) ++ [(column_move "alice" 3).(player)])) \/
     ((play_move (column_move "alice" 3) c4_started).2.(stage) = InProgress /\ (play_move (column_move "alice" 3) c4_started).2.(game).(completed) = false /\
      (play_move (column_move "alice" 3) c4_started).2.(game).(turn) <> c4_started.(game).(turn) /\
      (play_move (column_move "alice" 3) c4_started).2.(winner) = c4_started.(winner))).
Proof.
  assert (H : (play_move (column_move "alice" 3) c4_started).1 = Ok tt) by (vm_compute; reflexivity).
  split; [exact H|]. exact (play_move_ok _ _ H).
Defined.

Lemma winning_move_sound_witness :
  winning_move c4_won.(game) 0 = Ok true /\
  exists dr dc r0 c0,
    In (dr, dc) [(-1, 0); (0, 1); (-1, 1); (1, 1)] /\
    (forall j, 0 <= j < 4 -> get_cell_at c4_won.(game) (r0 + j * dr) (c0 + j * dc) = Some c4_won.(game).(turn)) /\
    exists j0, 0 <= j0 < 4 /\ r0 + j0 * dr = Z.of_nat (length [Red; Red; Red; Red]) - 1 /\ c0 + j0 * dc = 0.
Proof.
  assert (H : winning_move c4_won.(game) 0 = Ok true) by (vm_compute; reflexivity).
  split; [exact H|].
  apply (winning_move_sound c4_won.(game) 0 [Red; Red; Red; Red]).
  - lia.
  - vm_compute. reflexivity.
  - cbn. unfold ROW_SIZE. lia.
  - exact H.
Defined.

(** *** The encoded state *)

Definition token_name (p0 p1 : string) (t : Token) : string :=
  match t with Red => p0 | Blue => p1 end.

Lemma encode_column_names (a : Connect4Adapter) (p0 p1 : string) (col : list Token) :
  a.(players) = [p0; p1] ->
  encode_column a col = Ok (map (fun t => VString (token_name p0 p1 t)) col).
Proof.
  intros Hp. induction col as [|t col IH]; [done|].
  cbn. rewrite IH. unfold encode_token. rewrite Hp. by destruct t.
Qed.

Lemma encode_board_names (a : Connect4Adapter) (p0 p1 : string) (b : list (list Token)) :
  a.(players) = [p0; p1] ->
  encode_board a b =
    Ok (map (fun col => VArray (map (fun t => VString (token_name p0 p1 t)) col)) b).
Proof.
  intros Hp. induction b as [|col b IH]; [done|].
  cbn. by rewrite (encode_column_names a p0 p1 col Hp), IH.
Qed.

(** With two players, [get_encoded_state] succeeds; it shows every token
    of the board, column by column from the bottom, as the name of the
    player owning it (Red the first player, Blue the second), reports the
    player to move as the only one who can move while the game is in
    progress and nobody otherwise, and copies players, winners and stage. *)
Theorem get_encoded_state_names (a : Connect4Adapter) (p0 p1 : string) :
  a.(players) = [p0; p1] ->
  get_encoded_state a =
    Ok {| gs_players := [p0; p1];
          can_move := if stage_eqb a.(stage) InProgress
                      then [token_name p0 p1 a.(game).(turn)] else [];
          winners := a.(winner);
          gs_stage := a.(stage);
          payload := VObject [("cells", VArray
                       (map (fun col => VArray (map (fun t => VString (token_name p0 p1 t)) col))
                          a.(game).(board)))] |}.
Proof.
  intros Hp. unfold get_encoded_state.
  rewrite (encode_board_names a p0 p1 _ Hp).
  destruct (stage_eqb (stage a) InProgress); [|by rewrite Hp].
  unfold get_user_from_token. rewrite Hp. by destruct (turn (game a)).
Qed.

Lemma get_encoded_state_names_witness :
  c4_won.(players) = ["alice"; "bob"] /\
  get_encoded_state c4_won =
    Ok {| gs_players := ["alice"; "bob"];
          can_move := if stage_eqb c4_won.(stage) InProgress
                      then [token_name "alice" "bob" c4_won.(game).(turn)] else [];
          winners := c4_won.(winner);
          gs_stage := c4_won.(stage);
          payload := VObject [("cells", VArray
                       (map (fun col => VArray (map (fun t => VString (token_name "alice" "bob" t)) col))
                          c4_won.(game).(board)))] |}.
Proof.
  assert (H : c4_won.(players) = ["alice"; "bob"]) by (vm_compute; reflexivity).
  split; [exact H|]. exact (get_encoded_state_names c4_won "alice" "bob" H).
Defined.

End Connect4Facts.

(* ------------------------------------------------------------------ *)
Module SearchFacts.

(** *** [sorted_by] *)

Section Sort.
Context {A : Type} (cmp : A -> A -> comparison).

Lemma insert_by_perm (x : A) (l : list A) : Permutation (Search.insert_by cmp x l) (x :: l).
Proof.
  induction l as [|y l IH]; cbn; [done|].
  destruct (cmp x y); [|done|]; rewrite IH; apply Permutation_swap.
Qed.

Lemma fold_insert_perm (l acc : list A) :
  Permutation (fold_left (fun acc x => Search.insert_by cmp x acc) l acc) (l ++ acc).
Proof.
  revert acc. induction l as [|x l IH]; intros acc; cbn; [done|].
  rewrite IH, insert_by_perm. symmetry. apply Permutation_middle.
Qed.

Definition not_gt (a b : A) : Prop := cmp a b <> Gt.

Hypothesis cmp_antisym : forall a b, cmp b a = CompOpp (cmp a b).

Lemma insert_by_hdrel (y x : A) (l : list A) :
  HdRel not_gt y l -> not_gt y x -> HdRel not_gt y (Search.insert_by cmp x l).
Proof.
  destruct l as [|z l]; cbn; intros Hl Hx; [by constructor|].
  destruct (cmp x z); constructor; [by inversion Hl|done|by inversion Hl].
Qed.

Lemma insert_by_sorted (x : A) (l : list A) :
  Sorted not_gt l -> Sorted not_gt (Search.insert_by cmp x l).
Proof.
  induction 1 as [|y l Hs IH Hhd]; cbn; [repeat constructor|].
  destruct (cmp x y) eqn:E.
  - constructor; [done|]. apply insert_by_hdrel; [done|].
    unfold not_gt. by rewrite cmp_antisym, E.
  - constructor; [by constructor|]. constructor. unfold not_gt. by rewrite E.
  - constructor; [done|]. apply insert_by_hdrel; [done|].
    unfold not_gt. by rewrite cmp_antisym, E.
Qed.

Lemma fold_insert_sorted (l acc : list A) :
  Sorted not_gt acc -> Sorted not_gt (fold_left (fun acc x => Search.insert_by cmp x acc) l acc).
Proof.
  revert acc. induction l as [|x l IH]; intros acc Hs; cbn; [done|].
  by apply IH, insert_by_sorted.
Qed.

End Sort.

Lemma compare_summaries_antisym (k : Search.SortKey.t) (o : Search.SortOrder.t)
    (a b : Search.GameSummary) :
  Search.compare_summaries b a k o = CompOpp (Search.compare_summaries a b k o).
Proof.
  assert (Hanti : forall k', Search.compare_by_key k' b a = CompOpp (Search.compare_by_key k' a b)).
  { intros []; cbn; [done | apply Nat.compare_antisym | | apply Z.compare_antisym].
    unfold stage_cmp. apply Nat.compare_antisym. }
  assert (Hloop : forall n k' c,
    Search.compare_loop b a n k' (CompOpp c) = CompOpp (Search.compare_loop a b n k' c)).
  { induction n as [|n IH]; intros k' c; [done|]. cbn. rewrite Hanti.
    destruct (Search.compare_by_key k' a b); cbn; [apply (IH _ Eq)|done|done]. }
  unfold Search.compare_summaries.
  change (Search.compare_loop b a 4 k Eq) with (Search.compare_loop b a 4 k (CompOpp Eq)).
  rewrite Hloop. by destruct o.
Qed.

Lemma sorted_summaries_perm (summaries : list Search.GameSummary) (o : Search.SearchOptions) :
  Permutation (Search.sorted_summaries summaries o) summaries.
Proof.
  unfold Search.sorted_summaries, Search.sorted_by.
  rewrite fold_insert_perm. by rewrite app_nil_r.
Qed.

(** The sort of [SearchEngine::apply] returns the summaries it was given,
    each as often as given, in an order where no summary compares
    greater than the next one under the requested key and order. *)
Theorem sorted_summaries_sorted (summaries : list Search.GameSummary) (o : Search.SearchOptions) :
  Permutation (Search.sorted_summaries summaries o) summaries /\
  Sorted (fun a b => Search.compare_summaries a b o.(Search.sort_key) o.(Search.sort_order) <> Gt)
    (Search.sorted_summaries summaries o).
Proof.
  split; [apply sorted_summaries_perm|].
  unfold Search.sorted_summaries, Search.sorted_by.
  apply (fold_insert_sorted _ (compare_summaries_antisym _ _)). constructor.
Qed.

(** *** [SearchEngine::apply] *)

Lemma filter_sublist {A} (f : A -> bool) (l : list A) : List.filter f l `sublist_of` l.
Proof.
  induction l as [|x l IH]; cbn; [constructor|].
  destruct (f x); [by apply sublist_skip|by apply sublist_cons].
Qed.

Lemma apply_page_sub (summaries : list Search.GameSummary) (o : Search.SearchOptions)
    (l : list Search.GameSummary) :
  Search.apply summaries o = Ok l ->
  (length l <= 20)%nat /\ Forall (fun s => Search.matches o s = true) l /\ l ⊆+ summaries.
Proof.
  unfold Search.apply. destruct (_ =? 0); [discriminate|]. intros [= <-].
  rewrite !Search.filter_filter_andb.
  split; [rewrite length_take; unfold Search.LIST_GAME_SUMMARY_COUNT; cbn; lia|].
  split.
  - apply Forall_take. apply Forall_forall. intros s Hs.
    apply list_elem_of_In, filter_In in Hs as [_ Hs]. exact Hs.
  - etransitivity.
    + apply sublist_submseteq.
      etransitivity; [apply sublist_take|].
      etransitivity; [apply filter_sublist|apply sublist_drop].
    + apply Permutation_submseteq, sorted_summaries_perm.
Qed.

(** A page returned by [apply] holds at most 20 summaries, each matching
    every filter of the options, and each taken from the input: no
    summary comes back more often than it was given. *)
Theorem apply_page (summaries : list Search.GameSummary) (o : Search.SearchOptions)
    (l : list Search.GameSummary) :
  Search.apply summaries o = Ok l ->
  (length l <= 20)%nat /\ Forall (fun s => Search.matches o s = true) l /\ l ⊆+ summaries.
Proof. apply apply_page_sub. Qed.

Definition summary_at (g : GameId) (t : Z) (st : Stage) (ps : list string) : Search.GameSummary :=
  {| Search.game_id := g; Search.game_type := Connect4; Search.players := ps;
     Search.stage := st; Search.last_updated := t |}.

Definition page1_waiting : Search.SearchOptions :=
  {| Search.page := 1; Search.sort_order := Search.SortOrder.Desc;
     Search.sort_key := Search.SortKey.LastUpdated; Search.o_game_type := None;
     Search.o_players := None; Search.o_stage := Some Waiting |}.

Lemma apply_page_witness :
  exists l,
    Search.apply [summary_at [1; 1; 1; 1] 5 Waiting ["alice"];
                  summary_at [2; 2; 2; 2] 7 InProgress ["bob"; "carol"];
                  summary_at [3; 3; 3; 3] 9 Waiting []] page1_waiting = Ok l /\
    (length l <= 20)%nat /\ Forall (fun s => Search.matches page1_waiting s = true) l /\
    l ⊆+ [summary_at [1; 1; 1; 1] 5 Waiting ["alice"];
          summary_at [2; 2; 2; 2] 7 InProgress ["bob"; "carol"];
          summary_at [3; 3; 3; 3] 9 Waiting []].
Proof.
  pose (l := match Search.apply [summary_at [1; 1; 1; 1] 5 Waiting ["alice"];
                  summary_at [2; 2; 2; 2] 7 InProgress ["bob"; "carol"];
                  summary_at [3; 3; 3; 3] 9 Waiting []] page1_waiting with
             | Ok l => l | _ => [] end).
  assert (H : Search.apply [summary_at [1; 1; 1; 1] 5 Waiting ["alice"];
                  summary_at [2; 2; 2; 2] 7 InProgress ["bob"; "carol"];
                  summary_at [3; 3; 3; 3] 9 Waiting []] page1_waiting = Ok l)
    by (vm_compute; reflexivity).
  exists l. split; [exact H|]. exact (apply_page _ _ _ H).
Defined.


End SearchFacts.

(* ------------------------------------------------------------------ *)
Module RegistryFacts.
Import Adapter Registry.

Section Generic.
Context {A : Type} `{GameAdapter A}.

(** While a request holds the mutex of some game, [create_game] waits for
    it ([Pending]) and changes nothing. Otherwise it sweeps idle games,
    then returns the first drawn id that no remaining game uses, with a
    new [Waiting] game stored under it at the current time; when every
    drawn id is taken, the drawing loop does not return ([Pending]). *)
Theorem create_game_outcome (now : Z) (draws : list GameId) (mgr : gmap GameId (@Mutex A)) :
  ((exists g' m', mgr !! g' = Some m' /\ m'.(held) = true) /\
   create_game now draws mgr = (Pending, mgr)) \/
  (map_Forall (fun _ m => m.(held) = false) mgr /\
   exists pre g post,
     draws = pre ++ g :: post /\
     Forall (fun g' => gc_games now mgr !! g' <> None) pre /\
     gc_games now mgr !! g = None /\
     create_game now draws mgr = (Ok g, <[g := new_game g now]> (gc_games now mgr))) \/
  (map_Forall (fun _ m => m.(held) = false) mgr /\
   Forall (fun g' => gc_games now mgr !! g' <> None) draws /\
   create_game now draws mgr = (Pending, gc_games now mgr)).
Proof.
  unfold create_game. destruct (sweep_blocked mgr) eqn:Hb.
  { left. split; [|done].
    unfold sweep_blocked in Hb. apply existsb_exists in Hb as [[g' m'] [Hin Hh]].
    exists g', m'. split; [|done].
    apply elem_of_map_to_list. by apply list_elem_of_In. }
  right. apply sweep_blocked_false in Hb.
  assert (Hgen : forall m : gmap GameId (@Mutex A),
    (exists pre g post,
       draws = pre ++ g :: post /\
       Forall (fun g' => m !! g' <> None) pre /\ m !! g = None /\
       insert_fresh_game now draws m = (Ok g, <[g := new_game g now]> m)) \/
    (Forall (fun g' => m !! g' <> None) draws /\ insert_fresh_game now draws m = (Pending, m))).
  { intros m. induction draws as [|g rest IH]; cbn.
    - right. split; [constructor|done].
    - destruct (m !! g) eqn:E.
      + destruct IH as [(pre & g' & post & -> & Hpre & Hg' & Heq)|(Hall & Heq)].
        * left. exists (g :: pre), g', post. split; [done|].
          split; [constructor; [congruence|done]|]. done.
        * right. split; [constructor; [congruence|done]|done].
      + left. exists [], g, rest. split; [done|]. split; [constructor|]. done. }
  destruct (Hgen (gc_games now mgr)) as [Hok|Hpend]; [left|right]; by split.
Qed.

Lemma with_lock_forall {B} (P : @Game A -> Prop) (g : GameId) (f : Game -> Result B * Game)
    (mgr : gmap GameId (@Mutex A)) :
  map_Forall (fun _ m => P m.(data)) mgr -> (forall game, P game -> P (f game).2) ->
  map_Forall (fun _ m => P m.(data)) (with_lock g f mgr).2.
Proof.
  intros Hm Hf. unfold with_lock.
  destruct (mgr !! g) as [m|] eqn:Hg; [|done].
  destruct (held m); [done|]. destruct (poisoned m); [done|].
  pose proof (Hf (data m) (map_Forall_lookup_1 _ _ _ _ Hm Hg)) as Hd.
  destruct (f (data m)) as [r d]. cbn in *.
  by apply map_Forall_insert_2.
Qed.

End Generic.

(** *** Players and sessions of a Connect 4 registry *)

Definition game_inv (game : @Game Connect4.Connect4Adapter) : Prop :=
  NoDup (Connect4.players game.(adapter)) /\
  map_Forall (fun _ s => In s.(username) (Connect4.players game.(adapter))) game.(sessions) /\
  (forall sid1 sid2 s1 s2, game.(sessions) !! sid1 = Some s1 -> game.(sessions) !! sid2 = Some s2 ->
     s1.(username) = s2.(username) -> sid1 = sid2).

Definition registry_inv (mgr : C4Manager) : Prop :=
  map_Forall (fun _ m => game_inv m.(data)) mgr.

Lemma play_move_players (mv : GenericGameMove) (a : Connect4.Connect4Adapter) :
  Connect4.players (Connect4.play_move mv a).2 = Connect4.players a.
Proof.
  unfold Connect4.play_move, Connect4.finish_move.
  repeat case_match; cbn in *; congruence.
Qed.

Lemma add_player_cases (u : string) (a : Connect4.Connect4Adapter) :
  ((Connect4.add_player u a).1 = Ok tt /\
   Connect4.players (Connect4.add_player u a).2 = Connect4.players a ++ [u]) \/
  (Connect4.add_player u a).2 = a.
Proof. unfold Connect4.add_player. repeat case_match; cbn; auto. Qed.

Lemma insert_fresh_session_cases (s : Session) draws (game : @Game Connect4.Connect4Adapter) :
  (insert_fresh_session s draws game).2 = game \/
  exists sid, game.(sessions) !! sid = None /\
    (insert_fresh_session s draws game).2 =
      {| adapter := game.(adapter); sessions := <[sid := s]> game.(sessions);
         last_update := game.(last_update) |}.
Proof.
  revert game. induction draws as [|sid rest IH]; intros game; cbn; [by left|].
  destruct (sessions game !! sid) eqn:E; [apply IH|]. right. by exists sid.
Qed.

Lemma game_inv_join (g : GameId) (u : string) (now : Z) (draws : list SessionId)
    (game : @Game Connect4.Connect4Adapter) :
  game_inv game -> game_inv (join_locked g u now draws game).2.
Proof.
  intros (Hnd & Hin & Hinj). unfold join_locked.
  destruct (negb _); [done|]. destruct (String.eqb _ _); [done|].
  destruct (Nat.ltb _ _); [done|].
  change (has_player (adapter game) u) with (Connect4.has_player (adapter game) u).
  destruct (Connect4.has_player (adapter game) u) eqn:Hhas; [done|].
  assert (Hnot : ~ In u (Connect4.players (adapter game))).
  { intros Hu. apply has_player_In in Hu. congruence. }
  change (add_player u (adapter game)) with (Connect4.add_player u (adapter game)).
  destruct (add_player_cases u (adapter game)) as [[Hok Hpl]|Hsame].
  - destruct (Connect4.add_player u (adapter game)) as [r a'] eqn:Ha. cbn in Hok, Hpl. subst r.
    assert (Hnd' : NoDup (Connect4.players a')).
    { rewrite Hpl. apply NoDup_app. split; [done|]. split; [|apply NoDup_singleton].
      intros x Hx Hx'. apply list_elem_of_singleton in Hx'. subst x.
      apply Hnot. by apply list_elem_of_In. }
    destruct (insert_fresh_session_cases {| username := u |} draws
                {| adapter := a'; sessions := sessions game; last_update := now |})
      as [-> | (sid & Hfresh & ->)]; cbn in *.
    + split; [done|]. split.
      * intros k s Hk. cbn in *. rewrite Hpl. apply in_or_app. left. by apply (Hin k).
      * exact Hinj.
    + split; [done|]. split.
      * intros k s Hk. cbn in *. rewrite Hpl. apply in_or_app.
        destruct (decide (k = sid)) as [->|Hne].
        -- rewrite lookup_insert_eq in Hk. injection Hk as <-. right. by left.
        -- rewrite lookup_insert_ne in Hk by congruence. left. by apply (Hin k).
      * intros sid1 sid2 s1 s2 H1 H2 Hu. cbn in *.
        destruct (decide (sid1 = sid)) as [->|Hne1], (decide (sid2 = sid)) as [->|Hne2];
          [done| | |].
        -- rewrite lookup_insert_eq in H1. rewrite lookup_insert_ne in H2 by congruence.
           injection H1 as <-. exfalso. apply Hnot. cbn in Hu. rewrite Hu. by apply (Hin sid2).
        -- rewrite lookup_insert_eq in H2. rewrite lookup_insert_ne in H1 by congruence.
           injection H2 as <-. exfalso. apply Hnot. cbn in Hu. rewrite <- Hu. by apply (Hin sid1).
        -- rewrite lookup_insert_ne in H1, H2 by congruence. by apply (Hinj sid1 sid2 s1 s2).
  - destruct (Connect4.add_player u (adapter game)) as [r a'] eqn:Ha. cbn in Hsame. subst a'.
    destruct r as [[]|e|m|];
      [|by destruct game|by destruct game|by destruct game].
    destruct (insert_fresh_session_cases {| username := u |} draws
                {| adapter := adapter game; sessions := sessions game; last_update := now |})
      as [-> | (sid & Hfresh & ->)]; cbn in *.
    + split; [done|]. split; done.
    + exfalso. unfold Connect4.add_player in Ha. repeat case_match; cbn in *; try discriminate;
        injection Ha as Ha; apply (f_equal Connect4.players) in Ha; cbn in Ha;
        apply (f_equal (@length string)) in Ha; rewrite length_app in Ha; cbn in Ha; lia.
Qed.

Lemma game_inv_move (sid : SessionId) (mv : Value) (now : Z)
    (game : @Game Connect4.Connect4Adapter) :
  game_inv game -> game_inv (move_locked sid mv now game).2.
Proof.
  intros Hg. unfold move_locked.
  destruct (sessions game !! sid) as [s|]; [|done].
  change (play_move {| player := username s; move_payload := mv |} (adapter game))
    with (Connect4.play_move {| player := username s; move_payload := mv |} (adapter game)).
  pose proof (play_move_players {| player := username s; move_payload := mv |} (adapter game)) as Hp.
  destruct (Connect4.play_move _ (adapter game)) as [r a'] eqn:Ha. cbn in Hp.
  destruct Hg as (Hnd & Hin & Hinj).
  destruct r as [[]|e|m|]; unfold game_inv; cbn; (split; [by rewrite Hp|]); (split; [|done]);
    intros k x Hk; rewrite Hp; by apply (Hin k).
Qed.

Lemma registry_inv_serve (req : Request) (mgr : C4Manager) :
  registry_inv mgr -> registry_inv (serve req mgr).2.
Proof.
  intros Hm. destruct req as [now draws|now draws g u|now g sid mv|g|opts|g]; cbn.
  - assert (Hgc : registry_inv (gc_games now mgr)).
    { intros k m Hk. apply map_lookup_filter_Some in Hk as [Hk _]. by apply (Hm k). }
    unfold create_game. destruct (sweep_blocked mgr); [done|].
    revert Hgc. generalize (gc_games now mgr) as m0.
    induction draws as [|g rest IH]; intros m0 Hgc; cbn; [done|].
    destruct (m0 !! g); [by apply IH|].
    cbn. apply map_Forall_insert_2; [|done].
    split; [constructor|]. split; [apply map_Forall_empty|]. intros ? ? ? ? Hx. done.
  - unfold receive_join.
    pose proof (with_lock_forall game_inv g (join_locked g u now draws) mgr Hm
                  (game_inv_join g u now draws)) as Hw.
    destruct (with_lock _ _ _). exact Hw.
  - unfold receive_move.
    pose proof (with_lock_forall game_inv g (move_locked sid mv now) mgr Hm
                  (game_inv_move sid mv now)) as Hw.
    destruct (with_lock _ _ _). exact Hw.
  - unfold get_state.
    pose proof (with_lock_forall game_inv g state_locked mgr Hm) as Hw.
    destruct (with_lock _ _ _). apply Hw.
    intros game Hg. unfold state_locked. by repeat case_match.
  - unfold list_games.
    assert (Hp : forall g', registry_inv (poison g' mgr)).
    { intros g'. unfold poison. destruct (mgr !! g') eqn:E; [|done].
      apply map_Forall_insert_2; [|done]. cbn. by apply (Hm g'). }
    destruct (_ =? 0); [done|].
    destruct (collect (map_to_list mgr)) as [[l| | |] [g'|]]; cbn; done.
  - unfold subscribe.
    pose proof (with_lock_forall game_inv g
      (fun game => (Ok (Notify.subscribe (get_notifier game.(adapter))), game)) mgr Hm) as Hw.
    destruct (with_lock _ _ _). by apply Hw.
Qed.

Lemma registry_inv_run (reqs : list Request) (mgr : C4Manager) :
  registry_inv mgr -> registry_inv (run reqs mgr).2.
Proof.
  revert mgr. induction reqs as [|q rest IH]; intros mgr Hm; cbn; [done|].
  pose proof (registry_inv_serve q mgr Hm) as Hq.
  destruct (serve q mgr) as [r m1]. specialize (IH m1 Hq).
  destruct (run rest m1). exact IH.
Qed.

(** In every Connect 4 registry reached from the empty one by requests,
    the players of each game are distinct, every session of a game belongs
    to one of its players, and no two sessions of a game belong to the
    same player. *)
Theorem players_and_sessions (reqs : list Request) (g : GameId) (m : @Mutex Connect4.Connect4Adapter) :
  (run reqs ∅).2 !! g = Some m ->
  NoDup (Connect4.players m.(data).(adapter)) /\
  (forall sid s, m.(data).(sessions) !! sid = Some s ->
     In s.(username) (Connect4.players m.(data).(adapter))) /\
  (forall sid1 sid2 s1 s2, m.(data).(sessions) !! sid1 = Some s1 ->
     m.(data).(sessions) !! sid2 = Some s2 -> s1.(username) = s2.(username) -> sid1 = sid2).
Proof.
  intros Hg. apply (registry_inv_run reqs ∅ (map_Forall_empty _) g m Hg).
Qed.

Lemma players_and_sessions_witness :
  exists m,
    (run [CreateGame 0 [demo_game]; ReceiveJoin 1 [demo_session1] demo_game "alice";
          ReceiveJoin 2 [demo_session2] demo_game "bob"] ∅).2 !! demo_game = Some m /\
    NoDup (Connect4.players m.(data).(adapter)) /\
    (forall sid s, m.(data).(sessions) !! sid = Some s ->
       In s.(username) (Connect4.players m.(data).(adapter))) /\
    (forall sid1 sid2 s1 s2, m.(data).(sessions) !! sid1 = Some s1 ->
       m.(data).(sessions) !! sid2 = Some s2 -> s1.(username) = s2.(username) -> sid1 = sid2).
Proof.
  pose (m := from_option id (new_game demo_game 0) (demo_full !! demo_game)).
  assert (Hg : (run [CreateGame 0 [demo_game]; ReceiveJoin 1 [demo_session1] demo_game "alice";
                     ReceiveJoin 2 [demo_session2] demo_game "bob"] ∅).2 !! demo_game = Some m)
    by (vm_compute; reflexivity).
  exists m. split; [exact Hg|]. exact (players_and_sessions _ demo_game m Hg).
Defined.

(** *** Moves through the registry *)

Lemma play_move_ok_user (mv : GenericGameMove) (a : Connect4.Connect4Adapter) :
  (Connect4.play_move mv a).1 = Ok tt -> Connect4.get_user_from_token a = Ok mv.(player).
Proof.
  unfold Connect4.play_move. intros H.
  destruct (stage_eqb _ Waiting); [discriminate|].
  destruct (stage_eqb _ Ended); [discriminate|].
  destruct (Connect4.parse_request_payload _); [|discriminate].
  destruct (Connect4.get_user_from_token a) as [p|e|m|]; try discriminate.
  by destruct (String.eqb_spec p (player mv)) as [<-|].
Qed.

(** [receive_move] with a session id the game does not know fails with
    [SessionNotFound] and leaves the registry as it was. *)
Theorem receive_move_unknown_session (now : Z) (g : GameId) (sid : SessionId) (mv : Value)
    (mgr : C4Manager) (m : @Mutex Connect4.Connect4Adapter) :
  valid_registry mgr -> mgr !! g = Some m -> m.(data).(sessions) !! sid = None ->
  receive_move now g sid mv mgr = (Err (ManagerError (SessionNotFound sid)), mgr).
Proof.
  intros Hv Hg Hs. destruct (map_Forall_lookup_1 _ _ _ _ Hv Hg) as (Hh & Hp & _).
  unfold receive_move. rewrite (with_lock_some _ _ _ _ Hg Hh Hp).
  unfold move_locked. rewrite Hs. cbn.
  f_equal. apply insert_id. rewrite Hg. destruct m; cbn in *. by subst.
Qed.

(** A move accepted by [receive_move] came from a session of the game
    whose user was the player to move; the registry then stores the
    adapter after [play_move] and the time of the move, and keeps the
    sessions. *)
Theorem receive_move_ok (now : Z) (g : GameId) (sid : SessionId) (mv : Value)
    (mgr : C4Manager) :
  valid_registry mgr ->
  (receive_move now g sid mv mgr).1 = Ok tt ->
  exists m s,
    mgr !! g = Some m /\ m.(data).(sessions) !! sid = Some s /\
    Connect4.get_user_from_token m.(data).(adapter) = Ok s.(username) /\
    (receive_move now g sid mv mgr).2 =
      <[g := {| held := false; poisoned := false;
                data := {| adapter := (Connect4.play_move
                                         {| player := s.(username); move_payload := mv |}
                                         m.(data).(adapter)).2;
                           sessions := m.(data).(sessions); last_update := now |} |}]> mgr.
Proof.
  intros Hv. unfold receive_move.
  destruct (mgr !! g) as [m|] eqn:Hg.
  2:{ unfold with_lock. rewrite Hg. discriminate. }
  destruct (map_Forall_lookup_1 _ _ _ _ Hv Hg) as (Hh & Hp & _).
  rewrite (with_lock_some _ _ _ _ Hg Hh Hp). cbn [fst snd].
  unfold move_locked.
  destruct (sessions (data m) !! sid) as [s|] eqn:Hs; [|discriminate].
  change (play_move {| player := username s; move_payload := mv |} (adapter (data m)))
    with (Connect4.play_move {| player := username s; move_payload := mv |} (adapter (data m))).
  pose proof (play_move_ok_user {| player := username s; move_payload := mv |} (adapter (data m)))
    as Hu.
  destruct (Connect4.play_move _ (adapter (data m))) as [r a'] eqn:Ha.
  destruct r as [[]|e|m'|]; cbn; try discriminate.
  intros _. exists m, s. split; [done|]. split; [done|]. split; [by apply Hu|].
  by rewrite Ha.
Qed.

Lemma receive_move_unknown_session_witness :
  receive_move 3 demo_game (repeat 9 16) (VObject [("column", VNumber 0)]) demo_full =
    (Err (ManagerError (SessionNotFound (repeat 9 16))), demo_full).
Proof.
  assert (Hv : valid_registry demo_full) by (apply run_valid, valid_registry_empty).
  pose (m := from_option id (new_game demo_game 0) (demo_full !! demo_game)).
  assert (Hg : demo_full !! demo_game = Some m) by (vm_compute; reflexivity).
  apply (receive_move_unknown_session 3 demo_game (repeat 9 16) _ demo_full m Hv Hg).
  vm_compute. reflexivity.
Defined.

Lemma receive_move_ok_witness :
  exists m s,
    demo_full !! demo_game = Some m /\ m.(data).(sessions) !! demo_session1 = Some s /\
    Connect4.get_user_from_token m.(data).(adapter) = Ok s.(username) /\
    (receive_move 3 demo_game demo_session1 (VObject [("column", VNumber 0)]) demo_full).2 =
      <[demo_game := {| held := false; poisoned := false;
                data := {| adapter := (Connect4.play_move
                                         {| player := s.(username);
                                            move_payload := VObject [("column", VNumber 0)] |}
                                         m.(data).(adapter)).2;
                           sessions := m.(data).(sessions); last_update := 3 |} |}]> demo_full.
Proof.
  assert (Hv : valid_registry demo_full) by (apply run_valid, valid_registry_empty).
  apply (receive_move_ok 3 demo_game demo_session1 _ demo_full Hv).
  vm_compute. reflexivity.
Defined.

(** *** Reading requests *)

Lemma get_encoded_state_fields (a : Connect4.Connect4Adapter) (st : GenericGameState) :
  Connect4.get_encoded_state a = Ok st ->
  st.(gs_players) = Connect4.players a /\ st.(gs_stage) = Connect4.stage a.
Proof.
  unfold Connect4.get_encoded_state. intros H.
  repeat case_match; try discriminate; injection H as <-; done.
Qed.

Lemma collect_in (es : list (GameId * @Mutex Connect4.Connect4Adapter))
    (l : list Search.GameSummary) p :
  collect es = (Ok l, p) ->
  forall s, In s l -> exists g m, In (g, m) es /\ summarize g m = Ok s.
Proof.
  revert l p. induction es as [|[g m] rest IH]; intros l p; cbn.
  - intros [= <- _] s [].
  - destruct (summarize g m) as [s0| | |] eqn:Hs; try discriminate.
    destruct (collect rest) as [r p'] eqn:Hc.
    destruct r as [l'| | |]; cbn; try discriminate.
    intros [= <- _] s [<-|Hin].
    + exists g, m. split; [by left|done].
    + destruct (IH l' p' eq_refl s Hin) as (g' & m' & Hin' & Hs').
      exists g', m'. split; [by right|done].
Qed.

(** On a registry where no request has panicked, [list_games] refuses
    page 0 with [InvalidPage] in both build profiles. In a release build
    any other page succeeds and changes nothing; each of the at most 20
    summaries it returns describes a game of the registry under its id
    (its players, stage and last update) and matches the filters. A debug
    build returns the same page while [(page - 1) * 20] fits in a
    [usize], and panics with "attempt to multiply with overflow" beyond,
    leaving the registry unchanged. *)
Theorem list_games_page (opts : Search.SearchOptions) (mgr : C4Manager) :
  valid_registry mgr ->
  (opts.(Search.page) = 0 ->
     list_games opts mgr = (Err (ManagerError InvalidPage), mgr) /\
     list_games_debug opts mgr = (Err (ManagerError InvalidPage), mgr)) /\
  (opts.(Search.page) <> 0 ->
   exists l, list_games opts mgr = (Ok l, mgr) /\
     (1 <= opts.(Search.page) ->
      (opts.(Search.page) - 1) * Search.LIST_GAME_SUMMARY_COUNT < usize_modulus ->
      list_games_debug opts mgr = (Ok l, mgr)) /\
     (length l <= 20)%nat /\
     Forall (fun s => Search.matches opts s = true /\
       exists m, mgr !! s.(Search.game_id) = Some m /\
         s.(Search.players) = Connect4.players m.(data).(adapter) /\
         s.(Search.stage) = Connect4.stage m.(data).(adapter) /\
         s.(Search.last_updated) = m.(data).(last_update)) l) /\
  (usize_modulus <= (opts.(Search.page) - 1) * Search.LIST_GAME_SUMMARY_COUNT ->
     list_games_debug opts mgr = (Panic Search.overflow_msg, mgr)).
Proof.
  intros Hv. split; [|split; [|apply list_games_debug_overflow]].
  { intros Hp. unfold list_games, list_games_debug. by rewrite Hp. }
  intros Hp.
  assert (Hdbg : forall r, list_games opts mgr = r ->
            1 <= opts.(Search.page) ->
            (opts.(Search.page) - 1) * Search.LIST_GAME_SUMMARY_COUNT < usize_modulus ->
            list_games_debug opts mgr = r).
  { intros r <- H1 H2. by apply list_games_debug_release. }
  unfold list_games in Hdbg |- *. rewrite (proj2 (Z.eqb_neq _ _) Hp) in Hdbg |- *.
  assert (Hes : Forall (fun e => valid_mutex e.2) (map_to_list mgr)).
  { apply map_Forall_to_list in Hv. eapply Forall_impl; [exact Hv|]. by intros []. }
  destruct (collect_safe _ Hes) as [l0 Hc]. rewrite Hc in Hdbg |- *.
  unfold Search.apply. rewrite (proj2 (Z.eqb_neq _ _) Hp).
  match goal with |- exists l, (Ok ?x, _) = _ /\ _ => set (res := x) end.
  assert (Hpage : Search.apply l0 opts = Ok res).
  { unfold Search.apply. by rewrite (proj2 (Z.eqb_neq _ _) Hp). }
  destruct (SearchFacts.apply_page_sub l0 opts res Hpage) as (Hlen & Hm & Hsub).
  exists res. split; [done|]. split; [intros H1 H2; apply Hdbg; [by rewrite Hpage|done|done]|]. split; [done|].
  apply Forall_forall. intros s Hs. split; [by apply (Forall_forall _ res) with s in Hm|].
  assert (Hs0 : In s l0).
  { apply list_elem_of_In.
    exact (elem_of_submseteq _ _ _ Hs Hsub). }
  destruct (collect_in _ _ _ Hc s Hs0) as (g & m & Hin & Hsum).
  apply list_elem_of_In, elem_of_map_to_list in Hin.
  unfold summarize in Hsum.
  destruct (held m); [discriminate|]. destruct (poisoned m); [discriminate|].
  change (get_encoded_state (adapter (data m)))
    with (Connect4.get_encoded_state (adapter (data m))) in Hsum.
  destruct (Connect4.get_encoded_state (adapter (data m))) as [st| | |] eqn:Hst;
    try discriminate.
  destruct (get_encoded_state_fields _ _ Hst) as [Hpl Hsg].
  injection Hsum as <-. cbn. exists m. split; [done|]. split; [done|]. split; done.
Qed.

(** On a registry where no request has panicked, [get_state] and
    [subscribe] change nothing. For an absent game both fail with
    [GameNotFound]. For a present game [get_state] returns the adapter's
    encoded state with the entry ["game_type": "connect_4"] added after
    ["cells"] in its payload, and [subscribe] returns a subscription to
    the game's notifier. *)
Theorem get_state_subscribe (g : GameId) (mgr : C4Manager) :
  valid_registry mgr ->
  (mgr !! g = None ->
     get_state g mgr = (Err (ManagerError (GameNotFound g)), mgr) /\
     subscribe g mgr = (Err (ManagerError (GameNotFound g)), mgr)) /\
  (forall m, mgr !! g = Some m ->
     (exists st cells,
        Connect4.get_encoded_state m.(data).(adapter) = Ok st /\
        st.(payload) = VObject [("cells", cells)] /\
        get_state g mgr =
          (Ok (set_payload st (VObject [("cells", cells); ("game_type", VString "connect_4")])),
           mgr)) /\
     subscribe g mgr =
       (Ok (Notify.subscribe (Connect4.notifier m.(data).(adapter))), mgr)).
Proof.
  intros Hv. split.
  { intros Hg. unfold get_state, subscribe, with_lock. by rewrite Hg. }
  intros m Hg. destruct (map_Forall_lookup_1 _ _ _ _ Hv Hg) as (Hh & Hp & Ha).
  assert (Hm : <[g := {| held := false; poisoned := false; data := data m |}]> mgr = mgr).
  { apply insert_id. rewrite Hg. destruct m; cbn in *. by subst. }
  split.
  - unfold get_state. rewrite (with_lock_some _ _ _ _ Hg Hh Hp).
    unfold state_locked.
    change (get_encoded_state (adapter (data m)))
      with (Connect4.get_encoded_state (adapter (data m))).
    assert (Hcells : exists st cells, Connect4.get_encoded_state (adapter (data m)) = Ok st /\
                       st.(payload) = VObject [("cells", cells)]).
    { destruct (Connect4.encode_board_ok _ Ha) as [cells Hc].
      unfold Connect4.get_encoded_state. rewrite Hc.
      destruct (stage_eqb _ InProgress) eqn:Hs.
      - assert (Hpl : length (Connect4.players (adapter (data m))) = Connect4.NUM_PLAYERS).
        { destruct Ha as [_ [[Hw _]|[_ ?]]]; [|done]. by rewrite Hw in Hs. }
        destruct (Connect4.user_ok _ Hpl) as [u ->]. by do 2 eexists.
      - by do 2 eexists. }
    destruct Hcells as (st & cells & Hst & Hpay).
    exists st, cells. split; [done|]. split; [done|].
    rewrite Hst, Hpay. cbn. by rewrite Hm.
  - unfold subscribe. rewrite (with_lock_some _ _ _ _ Hg Hh Hp). cbn. by rewrite Hm.
Qed.

Lemma get_state_subscribe_witness :
  exists st cells,
    Connect4.get_encoded_state
      (from_option (fun m => m.(data).(adapter)) (Connect4.new demo_game) (demo_full !! demo_game))
      = Ok st /\
    st.(payload) = VObject [("cells", cells)] /\
    get_state demo_game demo_full =
      (Ok (set_payload st (VObject [("cells", cells); ("game_type", VString "connect_4")])),
       demo_full).
Proof.
  assert (Hv : valid_registry demo_full) by (apply run_valid, valid_registry_empty).
  pose (m := from_option id (new_game demo_game 0) (demo_full !! demo_game)).
  assert (Hg : demo_full !! demo_game = Some m) by (vm_compute; reflexivity).
  rewrite Hg. exact (proj1 (proj2 (get_state_subscribe demo_game demo_full Hv) m Hg)).
Defined.

Definition first_page : Search.SearchOptions :=
  {| Search.page := 1; Search.sort_order := Search.SortOrder.Asc;
     Search.sort_key := Search.SortKey.Players; Search.o_game_type := None;
     Search.o_players := None; Search.o_stage := None |}.

Lemma list_games_page_witness :
  (exists l, list_games first_page demo_full = (Ok l, demo_full) /\
     (1 <= first_page.(Search.page) ->
      (first_page.(Search.page) - 1) * Search.LIST_GAME_SUMMARY_COUNT < usize_modulus ->
      list_games_debug first_page demo_full = (Ok l, demo_full)) /\
     (length l <= 20)%nat /\
     Forall (fun s => Search.matches first_page s = true /\
       exists m, demo_full !! s.(Search.game_id) = Some m /\
         s.(Search.players) = Connect4.players m.(data).(adapter) /\
         s.(Search.stage) = Connect4.stage m.(data).(adapter) /\
         s.(Search.last_updated) = m.(data).(last_update)) l) /\
  list_games_debug Search.huge_page_options demo_full = (Panic Search.overflow_msg, demo_full).
Proof.
  assert (Hv : valid_registry demo_full) by (apply run_valid, valid_registry_empty).
  split.
  - apply (proj1 (proj2 (list_games_page first_page demo_full Hv))). cbn. lia.
  - apply (proj2 (proj2 (list_games_page Search.huge_page_options demo_full Hv))).
    cbn. unfold usize_modulus, Search.LIST_GAME_SUMMARY_COUNT. lia.
Defined.

End RegistryFacts.

(* ------------------------------------------------------------------ *)
Module NotifyFacts.
Import Notify.

Lemma wrap_usize_add_l (x y : Z) : wrap_usize (wrap_usize x + y) = wrap_usize (x + y).
Proof. unfold wrap_usize. apply Zplus_mod_idemp_l. Qed.

Lemma send_n_shape (k : nat) (n : Notifier) :
  exists l, (send_n k n).(sender).(ch_sent) = n.(sender).(ch_sent) ++ l /\
    length l = k /\ (k <> 0%nat -> head l = Some n.(clock)) /\
    (send_n k n).(sender).(ch_closed) = n.(sender).(ch_closed).
Proof.
  revert n. induction k as [|k IH]; intros n; cbn [send_n].
  - exists []. rewrite app_nil_r. done.
  - destruct (IH (send n)) as (l & Hl & Hlen & _ & Hcl). cbn in Hl, Hcl.
    exists (n.(clock) :: l). rewrite Hl, <- app_assoc.
    split; [done|]. split; [cbn; lia|]. split; [done|]. exact Hcl.
Qed.

(** [k] calls of [send] broadcast [k] consecutive clock values, starting
    at the current one and wrapping at [2^64], keep the sender open or
    closed as it was, and leave the clock just past the last value. *)
Theorem send_n_broadcasts (k : nat) (n : Notifier) :
  0 <= n.(clock) < usize_modulus ->
  (send_n k n).(sender).(ch_sent) =
    n.(sender).(ch_sent) ++ map (fun i => wrap_usize (n.(clock) + Z.of_nat i)) (seq 0 k) /\
  (send_n k n).(sender).(ch_closed) = n.(sender).(ch_closed) /\
  (send_n k n).(clock) = wrap_usize (n.(clock) + Z.of_nat k).
Proof.
  revert n. induction k as [|k IH]; intros n Hc; cbn [send_n].
  - cbn [seq map]. rewrite app_nil_r. split; [done|]. split; [done|].
    change (Z.of_nat 0) with 0. unfold wrap_usize. rewrite Z.add_0_r, Z.mod_small by done. done.
  - assert (Hc' : 0 <= (send n).(clock) < usize_modulus).
    { cbn. unfold wrap_usize. apply Z.mod_pos_bound. unfold usize_modulus. lia. }
    destruct (IH (send n) Hc') as (Hs & Hcl & Hk). cbn in Hs, Hcl, Hk.
    split; [|split; [done|]].
    + rewrite Hs, <- app_assoc. f_equal. cbn [seq map].
      change (Z.of_nat 0) with 0. rewrite Z.add_0_r.
      cbn [app]. f_equal; [unfold wrap_usize; by rewrite Z.mod_small|].
      rewrite <- seq_shift, map_map. apply map_ext. intros i.
      rewrite wrap_usize_add_l. f_equal. lia.
    + rewrite Hk, wrap_usize_add_l. f_equal. lia.
Qed.

Lemma send_n_broadcasts_witness :
  (send_n 3 new).(sender).(ch_sent) =
    new.(sender).(ch_sent) ++ map (fun i => wrap_usize (new.(clock) + Z.of_nat i)) (seq 0 3) /\
  (send_n 3 new).(sender).(ch_closed) = new.(sender).(ch_closed) /\
  (send_n 3 new).(clock) = wrap_usize (new.(clock) + Z.of_nat 3).
Proof. apply send_n_broadcasts. cbn. unfold usize_modulus. lia. Defined.

(** A subscription taken while the sender is open, followed by [k]
    calls of [send], makes [wait(since)] with [since] at or above the
    snapshot clock return the snapshot clock itself when [k <= 8]: the
    first value broadcast after subscribing is the clock read at
    subscription (with [k = 0] the timer fires and the snapshot is
    returned as well). With more than 8 sends the receiver has lagged
    and [wait] fails. *)
Theorem wait_after_sends (n : Notifier) (k : nat) (since : Z) :
  n.(clock) <= since -> n.(sender).(ch_closed) = false ->
  fst (wait (subscribe n) since (send_n k n).(sender)) =
    if Nat.leb k CAPACITY then Ok n.(clock) else Err NotifierError.
Proof.
  intros Hs Hcl.
  destruct (send_n_shape k n) as (l & Hl & Hlen & Hhd & Hcl').
  unfold wait, recv, subscribe. cbn [sub_clock receiver].
  rewrite (proj2 (Z.ltb_ge _ _) Hs), Hl, length_app, Hlen, Hcl', Hcl.
  unfold CAPACITY.
  destruct (Nat.leb_spec k 8) as [Hk|Hk].
  - rewrite (proj2 (Nat.ltb_ge _ _)) by lia.
    rewrite lookup_app_r, Nat.sub_diag by lia.
    destruct l as [|v l]; cbn.
    + reflexivity.
    + cbn in Hlen, Hhd. assert (Hv : Some v = Some n.(clock)) by (apply Hhd; lia).
      injection Hv as ->. reflexivity.
  - rewrite (proj2 (Nat.ltb_lt _ _)) by lia. reflexivity.
Qed.

Lemma wait_after_sends_witness :
  fst (wait (subscribe new) 1 (send_n 5 new).(sender)) = Ok 1.
Proof. apply (wait_after_sends new 5 1); cbn; [lia|reflexivity]. Defined.

End NotifyFacts.
(* ------------------------------------------------------------------ *)
Module IdsFacts.
Import Ids.

(** The characters [encode] returns, as the list [decode] reads. *)
Definition enc (data : list Z) : list ascii := list_ascii_of_string (encode data).

(** How many characters [encode] keeps for a last chunk of [r] bytes. *)
Definition digits_of_rem (r : nat) : nat :=
  match r with 0 => 0 | 1 => 2 | 2 => 4 | 3 => 5 | _ => 7 end%nat.

Definition is_alphabet_char (c : ascii) : Prop := exists i, c = alphabet_at i.

Lemma length_encode_chunk c : length (encode_chunk c) = 8%nat.
Proof. reflexivity. Qed.

Lemma encode_groups_long d : d <> [] -> (8 <= length (encode_groups d))%nat.
Proof.
  intros Hd. destruct d as [|a [|b [|c [|e [|f r]]]]]; [done| | | | |]; cbn [encode_groups];
    rewrite ?length_app, ?length_encode_chunk; lia.
Qed.

Lemma enc_cons5 b0 b1 b2 b3 b4 rest :
  enc (b0 :: b1 :: b2 :: b3 :: b4 :: rest) = encode_chunk [b0; b1; b2; b3; b4] ++ enc rest.
Proof.
  unfold enc, encode. cbn [encode_groups].
  replace (length (b0 :: b1 :: b2 :: b3 :: b4 :: rest) mod 5)%nat
    with (length rest mod 5)%nat by (cbn [length]; replace (S (S (S (S (S (length rest))))))
      with (length rest + 1 * 5)%nat by lia; by rewrite Nat.Div0.mod_add).
  destruct (Nat.eqb_spec (length rest mod 5) 0) as [H0|H0].
  - by rewrite !list_ascii_of_string_of_list_ascii.
  - rewrite !list_ascii_of_string_of_list_ascii.
    assert (Hr : rest <> []) by (intros ->; done).
    pose proof (encode_groups_long rest Hr).
    rewrite length_app, length_encode_chunk, firstn_app, length_encode_chunk.
    rewrite firstn_all2 by (rewrite length_encode_chunk; lia).
    f_equal. f_equal.
    assert (((length rest mod 5) * 8 + 4) / 5 <= 8)%nat.
    { apply Nat.Div0.div_le_upper_bound. pose proof (Nat.mod_upper_bound (length rest) 5). lia. }
    lia.
Qed.

Lemma chunk_ok b0 b1 b2 b3 b4 : Forall is_byte [b0; b1; b2; b3; b4] ->
  decode_chunk (encode_chunk [b0; b1; b2; b3; b4]) = Some [b0; b1; b2; b3; b4].
Proof.
  intros Hb. repeat match goal with
  | H : Forall _ (_ :: _) |- _ => apply Forall_cons in H as [? H]
  end.
  unfold decode_chunk, encode_chunk. id_eval.
  rewrite lookup_enc_d0, lookup_enc_d1, lookup_enc_d2, lookup_enc_d3,
    lookup_enc_d4, lookup_enc_d5, lookup_enc_d6, lookup_enc_d7 by byte_side.
  id_eval.
  rewrite dec_r0_enc, dec_r1_enc, dec_r2_enc, dec_r3_enc, dec_r4_enc by byte_side.
  reflexivity.
Qed.

Lemma encode_chunk_alphabet c : Forall is_alphabet_char (encode_chunk c).
Proof. unfold encode_chunk. repeat constructor; eexists; reflexivity. Qed.

Lemma decode_groups_app8 (c r : list ascii) : length c = 8%nat ->
  decode_groups (c ++ r) =
    match decode_chunk c, decode_groups r with
    | Some chunk, Some rest' => Some (chunk ++ rest')
    | _, _ => None
    end.
Proof.
  intros Hc. do 8 (destruct c as [|? c]; [discriminate Hc|]).
  destruct c; [reflexivity|discriminate Hc].
Qed.

Lemma short_ok d : Forall is_byte d -> (length d < 5)%nat ->
  (exists junk, decode_groups (enc d) = Some (d ++ junk)) /\
  length (enc d) = digits_of_rem (length d) /\ Forall is_alphabet_char (enc d).
Proof.
  intros Hb Hl. destruct d as [|b0 [|b1 [|b2 [|b3 [|b4 r]]]]]; cbn in Hl; [| | | | |lia];
  repeat match goal with
  | H : Forall _ (_ :: _) |- _ => apply Forall_cons in H as [? H]
  end; unfold enc, encode, encode_chunk; id_eval;
  (split; [|split; [reflexivity|repeat constructor; eexists; reflexivity]]);
  [by exists []| | | |];
  unfold decode_chunk; id_eval;
  rewrite ?lookup_enc_d0, ?lookup_enc_d1, ?lookup_enc_d2, ?lookup_enc_d3,
    ?lookup_enc_d4, ?lookup_enc_d5, ?lookup_enc_d6, ?lookup_enc_d7 by byte_side;
  id_eval; eexists;
  rewrite ?dec_r0_enc, ?dec_r1_enc, ?dec_r2_enc, ?dec_r3_enc by byte_side;
  reflexivity.
Qed.

Lemma enc_props d : Forall is_byte d ->
  (exists junk, decode_groups (enc d) = Some (d ++ junk)) /\
  length (enc d) = (8 * (length d / 5) + digits_of_rem (length d mod 5))%nat /\
  Forall is_alphabet_char (enc d).
Proof.
  remember (length d) as len eqn:Hlen. revert d Hlen.
  induction len as [len IH] using lt_wf_ind. intros d Hlen Hb.
  destruct (Nat.lt_ge_cases len 5) as [Hs|Hs].
  - subst len. rewrite Nat.div_small, Nat.mod_small by done. apply short_ok; done.
  - destruct d as [|b0 [|b1 [|b2 [|b3 [|b4 rest]]]]]; cbn in Hlen; try lia.
    assert (Hc : Forall is_byte [b0; b1; b2; b3; b4]).
    { repeat (apply Forall_cons in Hb as [? Hb]; constructor; [done|]). constructor. }
    assert (Hr : Forall is_byte rest).
    { by do 5 apply Forall_cons in Hb as [_ Hb]. }
    destruct (IH (length rest) ltac:(lia) rest eq_refl Hr) as ([junk Hj] & Hl & Ha).
    rewrite enc_cons5. split; [|split].
    + exists junk. rewrite decode_groups_app8 by reflexivity.
      rewrite chunk_ok, Hj by done. reflexivity.
    + rewrite length_app, length_encode_chunk, Hl, Hlen.
      replace (S (S (S (S (S (length rest)))))) with (length rest + 1 * 5)%nat by lia.
      rewrite Nat.div_add, Nat.Div0.mod_add by lia. lia.
    + apply Forall_app. split; [apply encode_chunk_alphabet|done].
Qed.

Lemma output_length_ok n :
  ((8 * (n / 5) + digits_of_rem (n mod 5)) * 5 / 8 = n)%nat.
Proof.
  pose proof (Nat.div_mod_eq n 5) as Hn. assert (Hb : (n mod 5 < 5)%nat) by (apply Nat.mod_upper_bound; lia).
  remember (n / 5)%nat as q. remember (n mod 5)%nat as r.
  rewrite Nat.mul_add_distr_r. replace (8 * q * 5)%nat with (5 * q * 8)%nat by lia.
  rewrite Nat.div_add_l by lia.
  assert (r = 0 \/ r = 1 \/ r = 2 \/ r = 3 \/ r = 4)%nat as Hr by lia.
  repeat destruct Hr as [->|Hr]; [| | | |rewrite Hr in *]; cbn [digits_of_rem];
    match goal with |- context [(?k * 5 / 8)%nat] =>
      let v := eval vm_compute in (k * 5 / 8)%nat in
      replace (k * 5 / 8)%nat with v by reflexivity end; lia.
Qed.

(** Decoding what [encode_id] produces gives the bytes back, for every
    byte string, not only the 4- and 16-byte identifiers: the encoder's
    truncated last chunk decodes to the bytes it carries, and the output
    length [unpadded * 5 / 8] cuts off exactly the zero padding. *)
Theorem decode_encode_id (data : list Z) :
  Forall is_byte data -> decode_id (encode_id data) = Some data.
Proof.
  intros Hb. destruct (enc_props data Hb) as ([junk Hj] & Hl & Ha).
  unfold decode_id, encode_id, decode. change (list_ascii_of_string (encode data)) with (enc data).
  assert (Hasc : forallb is_ascii_char (enc data) = true).
  { apply forallb_forall. intros c Hc. eapply List.Forall_forall in Ha as [i ->]; [|done].
    apply is_ascii_alphabet. }
  rewrite Hasc. cbn [negb].
  assert (Hp : count_padding (rev (enc data)) (Nat.min 6 (length (enc data))) = 0%nat).
  { destruct (rev (enc data)) as [|c l] eqn:Er; [by destruct (Nat.min _ _)|].
    assert (Hc : In c (enc data)) by (apply in_rev; rewrite Er; by left).
    eapply List.Forall_forall in Ha as [i ->]; [|done].
    destruct (Nat.min _ _); [done|]. cbn. by rewrite alphabet_not_pad. }
  rewrite Hp, Nat.sub_0_r, Hl, output_length_ok, Hj.
  by rewrite take_app_length.
Qed.

Lemma decode_encode_id_witness :
  decode_id (encode_id [0; 255; 17; 128; 64; 3; 200]) = Some [0; 255; 17; 128; 64; 3; 200].
Proof. apply decode_encode_id. repeat constructor; unfold is_byte; lia. Defined.

End IdsFacts.
